(** * Netflix case study notebook: cleaning, feature extraction, rankings

    A shallow embedding of the data pipeline of [Netflix_Case_Study.ipynb]:
    the cleaning cell, the date cell, the country / genre / actor rankings
    and the two duration parsers, together with the Python and pandas
    primitives those cells call.  Of a plotting call only the data it is
    given is kept. *)

From Stdlib Require Import Ascii String ZArith NArith List Lia Bool Arith.
From Stdlib Require Import Sorting.Sorted Sorting.Permutation.
From stdpp Require Import base gmap.
Import ListNotations.
Open Scope list_scope.

(* ===================================================================== *)
(** * Part I: definitions                                                 *)
(* ===================================================================== *)

(** ** Python strings

    A [str] is a sequence of code points.  The embedding covers the code
    points below 256, one [ascii] each. *)

Definition pystr := list ascii.

Definition str (s : string) : pystr := list_ascii_of_string s.

Definition code (c : ascii) : N := N_of_ascii c.

(** [str.isspace] on one character: the code points below 256 that CPython
    treats as white space (TAB..CR, FS..US, SPACE, NEL, NBSP). *)
Definition isspace (c : ascii) : bool :=
  let n := code c in
  ((9 <=? n) && (n <=? 13) || (28 <=? n) && (n <=? 32) || (n =? 133) || (n =? 160))%N.

Definition isdigit (c : ascii) : bool :=
  let n := code c in ((48 <=? n) && (n <=? 57))%N.

Definition digit_val (c : ascii) : N := (code c - 48)%N.

Definition ascii_eqb (a b : ascii) : bool := (code a =? code b)%N.

Fixpoint pystr_eqb (a b : pystr) : bool :=
  match a, b with
  | [], [] => true
  | x :: a', y :: b' => ascii_eqb x y && pystr_eqb a' b'
  | _, _ => false
  end.

(** [s.startswith(p)] *)
Fixpoint startswith (p s : pystr) : bool :=
  match p, s with
  | [], _ => true
  | x :: p', y :: s' => ascii_eqb x y && startswith p' s'
  | _ :: _, [] => false
  end.

(** [s.endswith(p)] *)
Definition endswith (p s : pystr) : bool := startswith (rev p) (rev s).

(** [sub in s] *)
Fixpoint contains (sub s : pystr) : bool :=
  startswith sub s ||
  match s with
  | [] => false
  | _ :: r => contains sub r
  end.

(** [s.lstrip()], [s.rstrip()], [s.strip()] *)
Fixpoint lstrip (s : pystr) : pystr :=
  match s with
  | [] => []
  | c :: r => if isspace c then lstrip r else s
  end.

Definition rstrip (s : pystr) : pystr := rev (lstrip (rev s)).

Definition strip (s : pystr) : pystr := rstrip (lstrip s).

(** [s.split()]: the maximal runs of characters that are not white space.
    [tok] holds the characters of the run being scanned, last one first. *)
Fixpoint split_ws_go (tok : pystr) (s : pystr) : list pystr :=
  match s with
  | [] => match tok with [] => [] | _ :: _ => [rev tok] end
  | c :: r =>
      if isspace c then
        match tok with
        | [] => split_ws_go [] r
        | _ :: _ => rev tok :: split_ws_go [] r
        end
      else split_ws_go (c :: tok) r
  end.

Definition split_ws (s : pystr) : list pystr := split_ws_go [] s.

(** [s.split(sep)] for a separator that is not empty: cut at every
    occurrence of [sep], scanning left to right without overlap.  [cur]
    holds the piece being scanned, last character first; [skip] counts the
    characters of a matched separator still to be passed over. *)
Fixpoint split_go (sep cur : pystr) (skip : nat) (s : pystr) : list pystr :=
  match s with
  | [] => [rev cur]
  | c :: r =>
      match skip with
      | S k => split_go sep cur k r
      | O =>
          if startswith sep s
          then rev cur :: split_go sep [] (length sep - 1) r
          else split_go sep (c :: cur) 0 r
      end
  end.

(** Exceptions of the Python code, and results of calls that may raise. *)
Inductive exn : Type :=
| ValueError
| IndexError
| TypeError
| NameError
| ZeroDivisionError.

Inductive result (A : Type) : Type :=
| Ok (a : A)
| Raise (e : exn).
Arguments Ok {A} a.
Arguments Raise {A} e.

Definition bind {A B : Type} (r : result A) (k : A -> result B) : result B :=
  match r with
  | Ok a => k a
  | Raise e => Raise e
  end.

Notation "'let*' x ':=' r 'in' k" := (bind r (fun x => k))
  (at level 10, x name, r at level 200, k at level 200, only parsing).

(** [try: body except ValueError: handler] *)
Definition try_except_ValueError {A : Type} (body : result A) (handler : result A)
  : result A :=
  match body with
  | Raise ValueError => handler
  | other => other
  end.

Definition split (sep s : pystr) : result (list pystr) :=
  match sep with
  | [] => Raise ValueError
  | _ :: _ => Ok (split_go sep [] 0 s)
  end.

(** [l[0]] *)
Definition item0 {A : Type} (l : list A) : result A :=
  match l with
  | [] => Raise IndexError
  | a :: _ => Ok a
  end.

(** [s.count(sub)]: occurrences of [sub] in [s], left to right without
    overlap ([sub] not empty). *)
Fixpoint count_go (sub : pystr) (skip : nat) (s : pystr) : nat :=
  match s with
  | [] => 0
  | _ :: r =>
      match skip with
      | S k => count_go sub k r
      | O =>
          if startswith sub s
          then S (count_go sub (length sub - 1) r)
          else count_go sub 0 r
      end
  end.

Definition count (sub s : pystr) : nat := count_go sub 0 s.

(** ** Python numbers

    [int] is [Z].  A [float] is a double: an infinity, NaN, or a finite
    number.  A finite double is a multiple of a power of two, so it has a
    finite decimal expansion, and it is kept as that decimal,
    [(-1)^neg * m * 10^e], exactly: [e <= 0], and [m] does not end in a
    zero unless [e = 0]. *)
Inductive pyfloat : Type :=
| Finite (neg : bool) (m : N) (e : Z)
| Inf (neg : bool)
| FNaN.

Inductive pyval : Type :=
| VStr (s : pystr)
| VInt (z : Z)
| VFloat (f : pyfloat)
| VNone.

(** [np.nan] *)
Definition nan : pyval := VFloat FNaN.

(** [pd.isna] on one value *)
Definition isna (v : pyval) : bool :=
  match v with
  | VFloat FNaN | VNone => true
  | _ => false
  end.

Definition float_nonneg (f : pyfloat) : bool :=
  match f with
  | Finite neg m _ => negb neg || (m =? 0)%N
  | Inf neg => negb neg
  | FNaN => false
  end.

(** [M * 2^k / 2^k'] with the common powers of two taken out of a
    fraction [M / 2^k]. *)
Fixpoint strip_twos (fuel : nat) (M k : Z) : Z * Z :=
  match fuel with
  | O => (M, k)
  | S fuel' =>
      if ((0 <? k) && Z.even M)%Z then strip_twos fuel' (M / 2)%Z (k - 1)%Z
      else (M, k)
  end.

(** The number [M * 2^p], as a decimal. *)
Definition dyadic (neg : bool) (M p : Z) : pyfloat :=
  if (0 <=? p)%Z then Finite neg (Z.to_N (M * 2 ^ p)) 0
  else
    let (M', k) := strip_twos (Z.to_nat (- p)) M (- p)%Z in
    Finite neg (Z.to_N (M' * 5 ^ k)) (- k)%Z.

(** [a / b] rounded to the nearest integer, a tie to the even one. *)
Definition round_half_even (a b : Z) : Z :=
  let q := (a / b)%Z in
  let r := (a mod b)%Z in
  if ((b <? 2 * r) || ((b =? 2 * r) && Z.odd q))%Z then (q + 1)%Z else q.

(** The double nearest to [m * 10^e], as CPython's [float] and its
    conversion of an [int] find it: 53 bits of precision, ties to even,
    exponents from -1074 on, and the infinity from [2^1024 - 2^970] on.
    The first two tests only spare the computation of a large power of
    ten where the result is known. *)
Definition to_double (neg : bool) (m : N) (e : Z) : pyfloat :=
  if (m =? 0)%N then Finite neg 0 0
  else
    let d := Z.log2 (Z.of_N m) in
    if ((0 <=? e) && (1024 <=? d + 3 * e))%Z then Inf neg
    else if ((e <? 0) && (d + 1 + 3 * e <? -1075))%Z then Finite neg 0 0
    else
      let num := if (0 <=? e)%Z then (Z.of_N m * 10 ^ e)%Z else Z.of_N m in
      let den := if (0 <=? e)%Z then 1%Z else (10 ^ (- e))%Z in
      let l := (Z.log2 num - Z.log2 den)%Z in
      let q := if (if (0 <=? l)%Z then (den * 2 ^ l <=? num)%Z
                   else (den <=? num * 2 ^ (- l))%Z)
               then l else (l - 1)%Z in
      let p := Z.max (q - 52) (-1074) in
      let M := if (0 <=? p)%Z then round_half_even num (den * 2 ^ p)
               else round_half_even (num * 2 ^ (- p)) den in
      if ((0 <? M) && (1024 <=? Z.log2 M + p))%Z then Inf neg else dyadic neg M p.

(** The [float] that pandas stores for an [int] in a float64 column. *)
Definition float_of_int (z : Z) : pyfloat := to_double (z <? 0)%Z (Z.abs_N z) 0.

Definition underscore : ascii := "_"%char.

(** An optional sign in front of a number: [(negative, rest)]. *)
Definition take_sign (s : pystr) : bool * pystr :=
  match s with
  | c :: r =>
      if ascii_eqb c "-"%char then (true, r)
      else if ascii_eqb c "+"%char then (false, r)
      else (false, s)
  | [] => (false, s)
  end.

Definition digits_val (ds : pystr) : N :=
  fold_left (fun acc c => (10 * acc + digit_val c)%N) ds 0%N.

(** The digits of [int(s)]: decimal digits, single underscores allowed
    between two digits.  [acc] is the value and [n] the number of digits
    read so far, [us] tells that the previous character was an underscore. *)
Fixpoint int_digits (acc : N) (n : nat) (us : bool) (s : pystr) : option (N * nat) :=
  match s with
  | [] => if us then None else match n with O => None | S _ => Some (acc, n) end
  | c :: r =>
      if isdigit c then int_digits (10 * acc + digit_val c)%N (S n) false r
      else if ascii_eqb c underscore then
        match n with
        | O => None
        | S _ => if us then None else int_digits acc n true r
        end
      else None
  end.

(** CPython's default limit on the digits of a decimal string given to
    [int] ([sys.get_int_max_str_digits()]). *)
Definition int_max_str_digits : nat := 4300.

(** [int(s)] for a [str] argument, base 10. *)
Definition py_int (s : pystr) : result Z :=
  let (neg, body) := take_sign (strip s) in
  match int_digits 0%N 0 false body with
  | Some (v, n) =>
      if (int_max_str_digits <? n)%nat then Raise ValueError
      else Ok (if neg then (- Z.of_N v)%Z else Z.of_N v)
  | None => Raise ValueError
  end.

(** The underscore rule of [float(s)]: an underscore must stand between two
    digits; the underscores are dropped.  [prev] is the previous character
    (NUL at the start). *)
Fixpoint drop_underscores (prev : ascii) (s : pystr) : option pystr :=
  match s with
  | [] => if ascii_eqb prev underscore then None else Some []
  | c :: r =>
      if ascii_eqb c underscore then
        if isdigit prev then drop_underscores c r else None
      else if ascii_eqb prev underscore && negb (isdigit c) then None
      else option_map (cons c) (drop_underscores c r)
  end.

Fixpoint span_digits (s : pystr) : pystr * pystr :=
  match s with
  | c :: r =>
      if isdigit c then let (ds, rest) := span_digits r in (c :: ds, rest)
      else ([], s)
  | [] => ([], [])
  end.

(** [Py_TOLOWER] *)
Definition tolower (c : ascii) : ascii :=
  let n := code c in
  if ((65 <=? n) && (n <=? 90))%N then ascii_of_N (n + 32) else c.

(** [inf], [infinity] and [nan], in any letter case. *)
Definition parse_inf_nan (neg : bool) (s : pystr) : option pyfloat :=
  let l := map tolower s in
  if pystr_eqb l (str "inf") || pystr_eqb l (str "infinity") then Some (Inf neg)
  else if pystr_eqb l (str "nan") then Some FNaN
  else None.

(** The exponent part: [e] or [E], an optional sign and at least one
    digit.  Without a digit nothing is read. *)
Definition parse_exponent (s : pystr) : Z * pystr :=
  match s with
  | c :: r =>
      if ascii_eqb (tolower c) "e"%char then
        let (eneg, r1) := take_sign r in
        let (ds, r2) := span_digits r1 in
        match ds with
        | [] => (0%Z, s)
        | _ :: _ =>
            ((if eneg then - Z.of_N (digits_val ds) else Z.of_N (digits_val ds))%Z, r2)
        end
      else (0%Z, s)
  | [] => (0%Z, s)
  end.

(** A decimal number with an optional fraction and exponent; the whole of
    [s] must be read.  The result is the double nearest to it. *)
Definition parse_decimal (neg : bool) (s : pystr) : option pyfloat :=
  let (ip, r1) := span_digits s in
  let (fp, r2) :=
    match r1 with
    | c :: r => if ascii_eqb c "."%char then span_digits r else ([], r1)
    | [] => ([], r1)
    end in
  match ip ++ fp with
  | [] => None
  | _ :: _ =>
      let (ex, r3) := parse_exponent r2 in
      match r3 with
      | [] => Some (to_double neg (digits_val (ip ++ fp)) (ex - Z.of_nat (length fp))%Z)
      | _ :: _ => None
      end
  end.

(** [float(s)] for a [str] argument. *)
Definition py_float (s : pystr) : result pyfloat :=
  match drop_underscores zero (strip s) with
  | None => Raise ValueError
  | Some t =>
      let (neg, body) := take_sign t in
      match parse_decimal neg body with
      | Some f => Ok f
      | None =>
          match parse_inf_nan neg body with
          | Some f => Ok f
          | None => Raise ValueError
          end
      end
  end.

(** ** The two duration parsers of the notebook *)

(** [parse_movie_duration], in the cell "Duration Analysis for Movies". *)
Definition parse_movie_duration (x : pyval) : result pyval :=
  match x with
  | VStr s =>
      if endswith (str "min") (strip s) then
        let* tok := item0 (split_ws (strip s)) in
        let* f := py_float tok in
        Ok (VFloat f)
      else Ok nan
  | _ => Ok nan
  end.

(** [parse_seasons], in the cell "Season Analysis for TV Shows". *)
Definition parse_seasons (x : pyval) : result pyval :=
  match x with
  | VStr s =>
      if contains (str "Season") s then
        let* num := item0 (split_ws s) in
        try_except_ValueError (let* z := py_int num in Ok (VInt z)) (Ok nan)
      else Ok nan
  | _ => Ok nan
  end.

(** ** [collections.Counter] and pandas' [value_counts] *)

(** A [Counter] is a dict: its keys stay in the order of first insertion,
    which the ranking depends on, so it is kept as an association list. *)
Definition counter := list (pystr * nat).

Fixpoint counter_add (k : pystr) (c : counter) : counter :=
  match c with
  | [] => [(k, 1)]
  | (k', n) :: r =>
      if pystr_eqb k k' then (k', S n) :: r else (k', n) :: counter_add k r
  end.

(** [Counter(xs)] *)
Definition Counter (xs : list pystr) : counter :=
  fold_left (fun c k => counter_add k c) xs [].

(** [c[k]], zero for a key that is absent. *)
Fixpoint counter_get (k : pystr) (c : counter) : nat :=
  match c with
  | [] => 0
  | (k', n) :: r => if pystr_eqb k k' then n else counter_get k r
  end.

(** [sorted(c, key=itemgetter(1), reverse=True)]: Python's sort is stable,
    also with [reverse=True], and a stable sort has one possible result;
    it is computed here by insertion. *)
Fixpoint insert_desc (x : pystr * nat) (l : counter) : counter :=
  match l with
  | [] => [x]
  | y :: r => if (snd x <? snd y)%nat then y :: insert_desc x r else x :: l
  end.

Definition sorted_desc (c : counter) : counter := fold_right insert_desc [] c.

(** [c.most_common(n)], that is [heapq.nlargest(n, c.items(), key=itemgetter(1))],
    which the library documents as [sorted(..., reverse=True)[:n]]. *)
Definition most_common (n : nat) (c : counter) : counter := firstn n (sorted_desc c).

(** [Series.dropna()] on a column of text cells ([None] is NaN). *)
Fixpoint dropna_cells (col : list (option pystr)) : list pystr :=
  match col with
  | [] => []
  | Some s :: r => s :: dropna_cells r
  | None :: r => dropna_cells r
  end.

(** [Series.value_counts()]: pandas counts the values that are not NaN, keys
    in the order of first occurrence, and then calls
    [sort_values(ascending=False)] with its default sort kind, "quicksort",
    which numpy does not promise to be stable.  That sort is library code;
    it is the parameter [sort_values] here. *)
Definition value_counts (sort_values : counter -> counter) (col : list (option pystr))
  : counter :=
  sort_values (Counter (dropna_cells col)).

(** [Series.nunique()] *)
Definition nunique (col : list (option pystr)) : nat :=
  length (Counter (dropna_cells col)).

(** [Series.head(n)] *)
Definition head {A : Type} (n : nat) (l : list A) : list A := firstn n l.

(** ** The table *)

Record timestamp : Type := mkTimestamp { year : Z; month : Z; day : Z }.

(** A cell of the [date_added] column: missing (NaN or NaT), the text read
    from the file, or the parsed date. *)
Inductive datecell : Type :=
| DNa
| DStr (s : pystr)
| DStamp (t : timestamp).

(** One row of the DataFrame.  The text columns hold a [str] or NaN
    ([None]).  The last five columns are added by the notebook; [None]
    stands for a column that is not there or a NaN in it. *)
Record row : Type := mkRow {
  title : option pystr;
  type_ : option pystr;
  director : option pystr;
  cast : option pystr;
  country : option pystr;
  date_added : datecell;
  rating : option pystr;
  duration : option pystr;
  listed_in : option pystr;
  added_year : option Z;
  added_month : option Z;
  added_day : option Z;
  duration_int : option pyval;
  seasons : option pyval
}.

Definition frame := list row.

(** A row as [pd.read_csv] yields it. *)
Definition csv_row (ti ty di ca co da ra du li : option pystr) : row :=
  mkRow ti ty di ca co (match da with Some s => DStr s | None => DNa end)
        ra du li None None None None None.

Definition set_director (v : option pystr) (r : row) : row :=
  mkRow (title r) (type_ r) v (cast r) (country r) (date_added r) (rating r)
        (duration r) (listed_in r) (added_year r) (added_month r) (added_day r)
        (duration_int r) (seasons r).

Definition set_cast (v : option pystr) (r : row) : row :=
  mkRow (title r) (type_ r) (director r) v (country r) (date_added r) (rating r)
        (duration r) (listed_in r) (added_year r) (added_month r) (added_day r)
        (duration_int r) (seasons r).

Definition set_country (v : option pystr) (r : row) : row :=
  mkRow (title r) (type_ r) (director r) (cast r) v (date_added r) (rating r)
        (duration r) (listed_in r) (added_year r) (added_month r) (added_day r)
        (duration_int r) (seasons r).

Definition set_date_added (d : datecell) (r : row) : row :=
  mkRow (title r) (type_ r) (director r) (cast r) (country r) d (rating r)
        (duration r) (listed_in r) (added_year r) (added_month r) (added_day r)
        (duration_int r) (seasons r).

Definition set_added_year (v : option Z) (r : row) : row :=
  mkRow (title r) (type_ r) (director r) (cast r) (country r) (date_added r)
        (rating r) (duration r) (listed_in r) v (added_month r) (added_day r)
        (duration_int r) (seasons r).

Definition set_added_month (v : option Z) (r : row) : row :=
  mkRow (title r) (type_ r) (director r) (cast r) (country r) (date_added r)
        (rating r) (duration r) (listed_in r) (added_year r) v (added_day r)
        (duration_int r) (seasons r).

Definition set_added_day (v : option Z) (r : row) : row :=
  mkRow (title r) (type_ r) (director r) (cast r) (country r) (date_added r)
        (rating r) (duration r) (listed_in r) (added_year r) (added_month r) v
        (duration_int r) (seasons r).

Definition set_duration_int (v : option pyval) (r : row) : row :=
  mkRow (title r) (type_ r) (director r) (cast r) (country r) (date_added r)
        (rating r) (duration r) (listed_in r) (added_year r) (added_month r)
        (added_day r) v (seasons r).

Definition set_seasons (v : option pyval) (r : row) : row :=
  mkRow (title r) (type_ r) (director r) (cast r) (country r) (date_added r)
        (rating r) (duration r) (listed_in r) (added_year r) (added_month r)
        (added_day r) (duration_int r) v.

Definition notna {A : Type} (c : option A) : bool :=
  match c with Some _ => true | None => false end.

Definition date_notna (d : datecell) : bool :=
  match d with DNa => false | _ => true end.

(** The value a text cell hands to a function given to [Series.apply]. *)
Definition cell_value (c : option pystr) : pyval :=
  match c with Some s => VStr s | None => nan end.

(** [col == s] and [col != s] on one text cell; NaN differs from every string. *)
Definition cell_eq (s : pystr) (c : option pystr) : bool :=
  match c with Some t => pystr_eqb t s | None => false end.

Definition cell_ne (s : pystr) (c : option pystr) : bool := negb (cell_eq s c).

(** [col.fillna(s)] on one text cell *)
Definition fillna (s : pystr) (c : option pystr) : option pystr :=
  match c with Some t => Some t | None => Some s end.

Definition No_Data : pystr := str "No Data".

(** [df.dropna(subset=['rating', 'duration', 'date_added'])] keeps the rows
    for which this holds. *)
Definition has_required (r : row) : bool :=
  notna (rating r) && notna (duration r) && date_notna (date_added r).

(** ** The notebook as a program

    The notebook's variables [df], [df_movies] and [df_shows] are bound to
    DataFrame objects; an assignment to a column changes the object in
    place, while [dropna], a boolean selection and [copy] make a new one.
    The objects live in a store indexed by object identity. *)

Inductive event : Type :=
| Print_missing (rating_n duration_n date_n : nat)
| Print_dropped (dropped : Z) (initial_count : nat)
| Print_failed_dates (n : nat)
| Display_failed (rows : list (option pystr * datecell))
| Print_unique_countries (n : nat)
| Print_bad_durations (n : nat)
| Plot_durations (col : list (option pyval))
| Print_fail_count (n : nat)
| Plot_seasons (col : list (option pyval))
| Plot_types (counts : list (pystr * nat))
| Plot_added_year (col : list (option Z))
| Plot_added_month (col : list (option Z))
| Plot_wordcloud (text : pystr).

Record state : Type := mkState {
  heap : gmap nat frame;
  df : option nat;
  df_movies : option nat;
  df_shows : option nat;
  top_countries : counter;
  top10_genres : counter;
  top_actors : counter;
  stdout : list event
}.

(** A computation of the notebook: it may raise, and the changes it made
    to the variables and objects before raising stay. *)
Definition NB (A : Type) : Type := state -> result A * state.

Definition ret {A : Type} (a : A) : NB A := fun st => (Ok a, st).

Definition nb_bind {A B : Type} (m : NB A) (k : A -> NB B) : NB B :=
  fun st =>
    match m st with
    | (Ok a, st') => k a st'
    | (Raise e, st') => (Raise e, st')
    end.

Notation "'let!' x ':=' m 'in' k" := (nb_bind m (fun x => k))
  (at level 10, x name, m at level 200, k at level 200, only parsing).

Notation "m1 ;;; m2" := (nb_bind m1 (fun _ => m2))
  (at level 100, m2 at level 200, right associativity, only parsing).

Definition lift {A : Type} (r : result A) : NB A := fun st => (r, st).

Definition raise {A : Type} (e : exn) : NB A := lift (Raise e).

(** A new DataFrame object. *)
Definition new_frame (f : frame) : NB nat :=
  fun st =>
    let l := fresh (dom (heap st)) in
    (Ok l, mkState (<[l := f]> (heap st)) (df st) (df_movies st) (df_shows st)
                   (top_countries st) (top10_genres st) (top_actors st) (stdout st)).

Definition frame_at (h : gmap nat frame) (l : nat) : frame := default [] (h !! l).

(** The rows of the object [l]. *)
Definition rows_of (l : nat) : NB frame := fun st => (Ok (frame_at (heap st) l), st).

(** Replace the rows of the object [l] in place. *)
Definition store (l : nat) (f : frame) : NB unit :=
  fun st =>
    (Ok tt, mkState (<[l := f]> (heap st)) (df st) (df_movies st) (df_shows st)
                    (top_countries st) (top10_genres st) (top_actors st) (stdout st)).

Definition print (e : event) : NB unit :=
  fun st =>
    (Ok tt, mkState (heap st) (df st) (df_movies st) (df_shows st)
                    (top_countries st) (top10_genres st) (top_actors st)
                    (stdout st ++ [e])).

Definition lookup_var (v : state -> option nat) : NB nat :=
  fun st => match v st with Some l => (Ok l, st) | None => (Raise NameError, st) end.

Definition assign_df (l : nat) : NB unit :=
  fun st =>
    (Ok tt, mkState (heap st) (Some l) (df_movies st) (df_shows st)
                    (top_countries st) (top10_genres st) (top_actors st) (stdout st)).

Definition assign_df_movies (l : nat) : NB unit :=
  fun st =>
    (Ok tt, mkState (heap st) (df st) (Some l) (df_shows st)
                    (top_countries st) (top10_genres st) (top_actors st) (stdout st)).

Definition assign_df_shows (l : nat) : NB unit :=
  fun st =>
    (Ok tt, mkState (heap st) (df st) (df_movies st) (Some l)
                    (top_countries st) (top10_genres st) (top_actors st) (stdout st)).

Definition assign_top_countries (c : counter) : NB unit :=
  fun st =>
    (Ok tt, mkState (heap st) (df st) (df_movies st) (df_shows st)
                    c (top10_genres st) (top_actors st) (stdout st)).

Definition assign_top10_genres (c : counter) : NB unit :=
  fun st =>
    (Ok tt, mkState (heap st) (df st) (df_movies st) (df_shows st)
                    (top_countries st) c (top_actors st) (stdout st)).

Definition assign_top_actors (c : counter) : NB unit :=
  fun st =>
    (Ok tt, mkState (heap st) (df st) (df_movies st) (df_shows st)
                    (top_countries st) (top10_genres st) c (stdout st)).

(** [pd.read_csv]: the table read from the file becomes the object bound to [df]. *)
Definition loaded (input : frame) : state :=
  mkState {[ 0 := input ]} (Some 0) None None [] [] [] [].

(** [len(col[mask])] for a mask given by [p]. *)
Definition count_rows (p : row -> bool) (f : frame) : nat := length (List.filter p f).

(** *** Cell "Handling Missing Values" *)

Definition cell_clean : NB unit :=
  let! d := lookup_var df in
  let! f := rows_of d in
  let initial_count := length f in
  print (Print_missing (count_rows (fun r => negb (notna (rating r))) f)
                       (count_rows (fun r => negb (notna (duration r))) f)
                       (count_rows (fun r => negb (date_notna (date_added r))) f)) ;;;
  let! d1 := new_frame (List.filter has_required f) in
  assign_df d1 ;;;
  let! d := lookup_var df in
  let! f := rows_of d in
  let dropped := (Z.of_nat initial_count - Z.of_nat (length f))%Z in
  (if (initial_count =? 0)%nat then raise ZeroDivisionError
   else print (Print_dropped dropped initial_count)) ;;;
  let! d := lookup_var df in
  let! f := rows_of d in
  store d (map (fun r => set_country (fillna No_Data (country r)) r) f) ;;;
  let! d := lookup_var df in
  let! f := rows_of d in
  store d (map (fun r => set_cast (fillna No_Data (cast r)) r) f) ;;;
  let! d := lookup_var df in
  let! f := rows_of d in
  store d (map (fun r => set_director (fillna No_Data (director r)) r) f).

(** [sep.join(l)] *)
Fixpoint join (sep : pystr) (l : list pystr) : pystr :=
  match l with
  | [] => []
  | [s] => s
  | s :: rest => s ++ sep ++ join sep rest
  end.

(** [f] on each value of a column in turn; the first exception ends it. *)
Fixpoint map_result {A B : Type} (f : A -> result B) (col : list A) : result (list B) :=
  match col with
  | [] => Ok []
  | a :: r =>
      let* b := f a in
      let* bs := map_result f r in
      Ok (b :: bs)
  end.

(** The column that pandas makes of a list of Python values
    ([lib.maybe_convert_objects]).  Numbers of which at least one is a
    float make a float64 column, in which an [int] is stored as the
    nearest double.  An [int] that 64 bits do not hold, or a negative
    [int] beside one above the largest signed 64-bit integer, makes an
    object column, which keeps every value as it is; so do values that are
    not numbers.  Numbers that are all [int] stay [int]. *)
Definition int64_min : Z := (- 2 ^ 63)%Z.

Definition int64_max : Z := (2 ^ 63 - 1)%Z.

Definition uint64_max : Z := (2 ^ 64 - 1)%Z.

Definition is_float (v : pyval) : bool :=
  match v with VFloat _ => true | _ => false end.

Definition is_number (v : pyval) : bool :=
  match v with VInt _ | VFloat _ => true | _ => false end.

Definition in_64_bits (v : pyval) : bool :=
  match v with
  | VInt z => ((int64_min <=? z) && (z <=? uint64_max))%Z
  | _ => true
  end.

Definition is_negative_int (v : pyval) : bool :=
  match v with VInt z => (z <? 0)%Z | _ => false end.

Definition is_big_uint (v : pyval) : bool :=
  match v with VInt z => (int64_max <? z)%Z | _ => false end.

Definition float64_column (vals : list pyval) : bool :=
  forallb is_number vals && existsb is_float vals && forallb in_64_bits vals &&
  negb (existsb is_negative_int vals && existsb is_big_uint vals).

(** What the column made of [vals] holds for the value [v]. *)
Definition stored (vals : list pyval) (v : pyval) : pyval :=
  if float64_column vals then
    match v with VInt z => VFloat (float_of_int z) | _ => v end
  else v.

Definition maybe_convert_objects (vals : list pyval) : list pyval :=
  map (stored vals) vals.

(** [Series.apply(f)]: [f] on each value, and the column made of the results. *)
Definition apply (f : pyval -> result pyval) (col : list pyval) : result (list pyval) :=
  let* vals := map_result f col in
  Ok (maybe_convert_objects vals).

(** [df[name] = col]: the values of [col] row by row. *)
Definition set_column {A : Type} (set : A -> row -> row) (col : list A) (f : frame)
  : frame :=
  map (fun rv => set (snd rv) (fst rv)) (combine f col).

(** NaN test on a cell of a column added by the notebook. *)
Definition col_isna (c : option pyval) : bool :=
  match c with Some v => isna v | None => true end.

Definition date_format : pystr := str "%B %d, %Y".

(** [Series.dt.year] and the like on one cell. *)
Definition dt (field : timestamp -> Z) (c : datecell) : option Z :=
  match c with DStamp t => Some (field t) | _ => None end.

(** The rows whose [country] is not the sentinel, as the notebook selects
    them: [df[df['country'] != 'No Data']['country']]. *)
Definition country_series (f : frame) : list (option pystr) :=
  map country (List.filter (fun r => cell_ne No_Data (country r)) f).

(** The genre loop: [for cell in ...: for genre in cell.split(','):
    all_genres.append(genre.strip())]. *)
Fixpoint genre_loop (cells : list pystr) (all_genres : list pystr)
  : result (list pystr) :=
  match cells with
  | [] => Ok all_genres
  | cell :: rest =>
      let* genres := split (str ",") cell in
      genre_loop rest (all_genres ++ map strip genres)
  end.

Definition all_genres_of (f : frame) : result (list pystr) :=
  genre_loop (dropna_cells (map listed_in f)) [].

(** [Series.str.split(sep)] on one cell: NaN stays NaN. *)
Definition str_split (sep : pystr) (c : option pystr) : result (option (list pystr)) :=
  match c with
  | Some s => let* l := split sep s in Ok (Some l)
  | None => Ok None
  end.

(** [df[df['cast'] != 'No Data']['cast'].str.split(', ')].  The column is
    taken to hold text, as [read_csv] makes it when a record of the file
    has a cast or the cleaning cell has filled it; a column read as all
    missing holds floats, and [.str] on it raises [AttributeError]. *)
Definition cast_series (f : frame) : result (list (option (list pystr))) :=
  map_result (str_split (str ", "))
        (map cast (List.filter (fun r => cell_ne No_Data (cast r)) f)).

(** [[actor.strip() for sublist in cast_series for actor in sublist]];
    a NaN in the series cannot be iterated. *)
Fixpoint flat_cast_list (series : list (option (list pystr))) : result (list pystr) :=
  match series with
  | [] => Ok []
  | Some sublist :: rest =>
      let* tl := flat_cast_list rest in
      Ok (map strip sublist ++ tl)
  | None :: _ => Raise TypeError
  end.

Section Cells.

(** Library code the notebook calls and that is not its own:
    - [strptime fmt s] is the date that pandas reads from [s] under the
      format [fmt], if there is one;
    - [sort_values] is [Series.sort_values(ascending=False)] as
      [value_counts] calls it;
    - [generate text] is [WordCloud(...).generate(text)], which raises
      [ValueError] when it finds no word to draw in [text]. *)
Variable strptime : pystr -> pystr -> option timestamp.
Variable sort_values : counter -> counter.
Variable generate : pystr -> result unit.

(** [pd.to_datetime(col, format=fmt, errors='coerce')] on one cell. *)
Definition to_datetime (fmt : pystr) (c : datecell) : datecell :=
  match c with
  | DNa => DNa
  | DStr s => match strptime fmt s with Some t => DStamp t | None => DNa end
  | DStamp t => DStamp t
  end.

(** *** Cell "Parsing Dates and Extracting Time Features" *)

(** Up to and including the report of the failures. *)
Definition cell_dates_parse : NB unit :=
  let! d := lookup_var df in
  let! f := rows_of d in
  store d (map (fun r => set_date_added (to_datetime date_format (date_added r)) r) f) ;;;
  let! d := lookup_var df in
  let! f := rows_of d in
  let failed_dates := count_rows (fun r => negb (date_notna (date_added r))) f in
  print (Print_failed_dates failed_dates) ;;;
  if (0 <? failed_dates)%nat then
    let! d := lookup_var df in
    let! f := rows_of d in
    print (Display_failed
             (head 5 (map (fun r => (title r, date_added r))
                          (List.filter (fun r => negb (date_notna (date_added r))) f))))
  else ret tt.

(** From [df = df.dropna(subset=['date_added'])] on. *)
Definition cell_dates_drop : NB unit :=
  let! d := lookup_var df in
  let! f := rows_of d in
  let! d1 := new_frame (List.filter (fun r => date_notna (date_added r)) f) in
  assign_df d1 ;;;
  let! d := lookup_var df in
  let! f := rows_of d in
  store d (map (fun r => set_added_year (dt year (date_added r)) r) f) ;;;
  let! d := lookup_var df in
  let! f := rows_of d in
  store d (map (fun r => set_added_month (dt month (date_added r)) r) f) ;;;
  let! d := lookup_var df in
  let! f := rows_of d in
  store d (map (fun r => set_added_day (dt day (date_added r)) r) f).

Definition cell_dates : NB unit := cell_dates_parse ;;; cell_dates_drop.

(** *** Cell "Content Type Distribution": the counts per [type] that are plotted. *)

Definition cell_types : NB unit :=
  let! d := lookup_var df in
  let! f := rows_of d in
  print (Plot_types (value_counts sort_values (map type_ f))).

(** *** Cell "Country and Genre Analysis" *)

Definition top_countries_of (f : frame) : counter :=
  head 10 (value_counts sort_values (country_series f)).

Definition cell_country_genre : NB unit :=
  let! d := lookup_var df in
  let! f := rows_of d in
  print (Print_unique_countries (nunique (country_series f))) ;;;
  let! d := lookup_var df in
  let! f := rows_of d in
  assign_top_countries (top_countries_of f) ;;;
  let! d := lookup_var df in
  let! f := rows_of d in
  let! all_genres := lift (all_genres_of f) in
  assign_top10_genres (most_common 10 (Counter all_genres)).

(** *** Cell "Duration Analysis for Movies" *)

Definition cell_movies : NB unit :=
  let! d := lookup_var df in
  let! f := rows_of d in
  let! sel := new_frame (List.filter (fun r => cell_eq (str "Movie") (type_ r)) f) in
  let! fsel := rows_of sel in
  let! cp := new_frame fsel in
  assign_df_movies cp ;;;
  let! m := lookup_var df_movies in
  let! fm := rows_of m in
  let! col := lift (apply parse_movie_duration (map (fun r => cell_value (duration r)) fm)) in
  let! m := lookup_var df_movies in
  let! fm := rows_of m in
  store m (set_column (fun v => set_duration_int (Some v)) col fm) ;;;
  let! m := lookup_var df_movies in
  let! fm := rows_of m in
  print (Print_bad_durations (count_rows (fun r => col_isna (duration_int r)) fm)) ;;;
  let! m := lookup_var df_movies in
  let! fm := rows_of m in
  let! m1 := new_frame (List.filter (fun r => negb (col_isna (duration_int r))) fm) in
  assign_df_movies m1 ;;;
  let! m := lookup_var df_movies in
  let! fm := rows_of m in
  print (Plot_durations (map duration_int fm)).

(** *** Cell "Season Analysis for TV Shows" *)

Definition cell_shows : NB unit :=
  let! d := lookup_var df in
  let! f := rows_of d in
  let! sel := new_frame (List.filter (fun r => cell_eq (str "TV Show") (type_ r)) f) in
  let! fsel := rows_of sel in
  let! cp := new_frame fsel in
  assign_df_shows cp ;;;
  let! s := lookup_var df_shows in
  let! fs := rows_of s in
  let! col := lift (apply parse_seasons (map (fun r => cell_value (duration r)) fs)) in
  let! s := lookup_var df_shows in
  let! fs := rows_of s in
  store s (set_column (fun v => set_seasons (Some v)) col fs) ;;;
  let! s := lookup_var df_shows in
  let! fs := rows_of s in
  print (Print_fail_count (count_rows (fun r => col_isna (seasons r)) fs)) ;;;
  let! s := lookup_var df_shows in
  let! fs := rows_of s in
  let! s1 := new_frame (List.filter (fun r => negb (col_isna (seasons r))) fs) in
  assign_df_shows s1 ;;;
  let! s := lookup_var df_shows in
  let! fs := rows_of s in
  print (Plot_seasons (map seasons fs)).

(** *** Cell "Trends Over Time": the two columns that are counted and plotted. *)

Definition cell_trends : NB unit :=
  let! d := lookup_var df in
  let! f := rows_of d in
  print (Plot_added_year (map added_year f)) ;;;
  let! d := lookup_var df in
  let! f := rows_of d in
  print (Plot_added_month (map added_month f)).

(** *** Cell "Top Actors/Actresses" *)

Definition cell_actors : NB unit :=
  let! d := lookup_var df in
  let! f := rows_of d in
  let! series := lift (cast_series f) in
  let! flat := lift (flat_cast_list series) in
  assign_top_actors (most_common 10 (Counter flat)).

(** *** Cell "Word Cloud of Titles", with the [wordcloud] package installed.

    [Plot_wordcloud text] records the text that is handed to [generate];
    the image is drawn only if [generate] returns. *)

Definition cell_wordcloud : NB unit :=
  let! d := lookup_var df in
  let! f := rows_of d in
  let text := join (str " ") (dropna_cells (map title f)) in
  print (Plot_wordcloud text) ;;;
  lift (generate text).

(** The cells after the date cell, in the order of the notebook. *)
Definition aggregation_cells : list (NB unit) :=
  [cell_types; cell_country_genre; cell_movies; cell_shows; cell_trends;
   cell_actors; cell_wordcloud].

(** Running cells one after the other; an exception stops the run. *)
Fixpoint run_cells (cells : list (NB unit)) : NB unit :=
  match cells with
  | [] => ret tt
  | c :: rest => c ;;; run_cells rest
  end.

Definition notebook : NB unit :=
  run_cells (cell_clean :: cell_dates :: aggregation_cells).

End Cells.

(** ** What the notebook's variables hold *)

Definition is_movie (r : row) : bool := cell_eq (str "Movie") (type_ r).

Definition is_show (r : row) : bool := cell_eq (str "TV Show") (type_ r).

Definition frame_of_var (v : option nat) (st : state) : frame :=
  match v with Some l => frame_at (heap st) l | None => [] end.

(** The rows of [df], of [df_movies] and of [df_shows]. *)
Definition main_frame (st : state) : frame := frame_of_var (df st) st.

Definition movies_frame (st : state) : frame := frame_of_var (df_movies st) st.

Definition shows_frame (st : state) : frame := frame_of_var (df_shows st) st.

(** The actor ranking as a function of the rows of [df]. *)
Definition top_actors_of (f : frame) : result counter :=
  let* series := cast_series f in
  let* flat := flat_cast_list series in
  Ok (most_common 10 (Counter flat)).

(** The genre ranking as a function of the rows of [df]. *)
Definition top10_genres_of (f : frame) : result counter :=
  let* all_genres := all_genres_of f in
  Ok (most_common 10 (Counter all_genres)).




(** The rows that the movie cell leaves in [df_movies], and the season
    cell in [df_shows], as functions of the rows of [df]. *)
Definition movies_kept (f : frame) : frame :=
  let movies := List.filter is_movie f in
  match apply parse_movie_duration (map (fun r => cell_value (duration r)) movies) with
  | Ok col =>
      List.filter (fun r => negb (col_isna (duration_int r)))
                  (set_column (fun v => set_duration_int (Some v)) col movies)
  | Raise _ => movies
  end.

Definition shows_kept (f : frame) : frame :=
  let shows := List.filter is_show f in
  match apply parse_seasons (map (fun r => cell_value (duration r)) shows) with
  | Ok col =>
      List.filter (fun r => negb (col_isna (seasons r)))
                  (set_column (fun v => set_seasons (Some v)) col shows)
  | Raise _ => shows
  end.



(** The columns read from the file, the date apart, are the same in two rows. *)
Definition same_text_columns (r r' : row) : Prop :=
  title r' = title r /\ type_ r' = type_ r /\ director r' = director r /\
  cast r' = cast r /\ country r' = country r /\ rating r' = rating r /\
  duration r' = duration r /\ listed_in r' = listed_in r.

(** ** Notions of the specification, for comparison with the code *)

(** The leading token of [s] delimited by white space: skip the white
    space at the start, then read up to the next white space. *)
Fixpoint token_prefix (s : pystr) : pystr :=
  match s with
  | [] => []
  | c :: r => if isspace c then [] else c :: token_prefix r
  end.

Definition leading_token (s : pystr) : pystr := token_prefix (lstrip s).

(** The number of commas of a string. *)
Definition commas (s : pystr) : nat :=
  length (List.filter (ascii_eqb ","%char) s).

(** Occurrences of a token in a list of tokens. *)
Definition occurrences (k : pystr) (l : list pystr) : nat :=
  length (List.filter (pystr_eqb k) l).

(** Position of the first occurrence of [k] in [l] ([length l] if none). *)
Fixpoint first_index (k : pystr) (l : list pystr) : nat :=
  match l with
  | [] => 0
  | x :: r => if pystr_eqb k x then 0 else S (first_index k r)
  end.

(** Country tokens as the specification words them: the [country] field of
    every record whose field is not the sentinel, split at the commas,
    every token trimmed. *)
Definition exploded_countries (f : frame) : list pystr :=
  flat_map (fun s => map strip (split_go (str ",") [] 0 s))
           (dropna_cells (country_series f)).

Definition sum_rows (g : row -> nat) (f : frame) : nat :=
  fold_right (fun r acc => g r + acc) 0 f.

(** "Comma count plus one" of a text cell; a missing cell has no token. *)
Definition commas_plus_one (c : option pystr) : nat :=
  match c with Some s => commas s + 1 | None => 0 end.

(** The same with the separator [", "] that the cast column is split at. *)
Definition separators_plus_one (c : option pystr) : nat :=
  match c with Some s => count (str ", ") s + 1 | None => 0 end.

(** A string of decimal digits only, at least one. *)
Definition all_digits (s : pystr) : bool :=
  match s with [] => false | _ :: _ => forallb isdigit s end.

(** The keys of a table, in its order. *)
Definition keys (c : counter) : list pystr := map fst c.

(** [a] stands before [b] in [l]. *)
Definition before {A : Type} (a b : A) (l : list A) : Prop :=
  exists l1 l2 l3, l = l1 ++ a :: l2 ++ b :: l3.

(** The order on ranking entries: larger count first. *)
Definition count_ge (a b : pystr * nat) : Prop := snd b <= snd a.

(** What pandas documents of [sort_values(ascending=False)]: the same
    entries, in descending order. *)
Definition sorts_descending (sort_values : counter -> counter) : Prop :=
  forall c, Permutation c (sort_values c) /\ StronglySorted count_ge (sort_values c).

(** In a ranking built from the tokens [tokens], entries with equal counts
    stand in the order in which their tokens were first met. *)
Definition ties_by_first_encounter (tokens : list pystr) (ranking : counter) : Prop :=
  forall i j a b,
    i < j ->
    nth_error ranking i = Some a ->
    nth_error ranking j = Some b ->
    snd a = snd b ->
    first_index (fst a) tokens < first_index (fst b) tokens.

(** ** Sample tables *)

Definition sample_date : timestamp := mkTimestamp 2020 1 1.

(** A cleaned row, as the date cell leaves it. *)
Definition sample_row (ty co ca du li : string) : row :=
  mkRow (Some (str "A Title")) (Some (str ty)) (Some No_Data) (Some (str ca))
        (Some (str co)) (DStamp sample_date) (Some (str "PG")) (Some (str du))
        (Some (str li)) (Some 2020%Z) (Some 1%Z) (Some 1%Z) None None.

Definition coproduction_table : frame :=
  [sample_row "Movie" "United States, India" "No Data" "90 min" "Dramas"].

Definition negative_minutes_table : frame :=
  [sample_row "Movie" "India" "No Data" "-5 min" "Dramas"].

(** A duration one above [2^53], which is not a double. *)
Definition rounded_minutes_table : frame :=
  [sample_row "Movie" "India" "No Data" "9007199254740993 min" "Dramas"].



Definition tight_comma_table : frame :=
  [sample_row "Movie" "India" "A,B" "90 min" "Dramas"].

Definition two_countries_table : frame :=
  [sample_row "Movie" "India" "No Data" "90 min" "Dramas";
   sample_row "Movie" "Japan" "No Data" "90 min" "Dramas"].

Definition word_minutes_table : frame :=
  [sample_row "Movie" "India" "No Data" "abc min" "Dramas"].

(** The rows of the specification's end-to-end scenarios, as read from the file. *)
Definition scenario_table : frame :=
  [csv_row (Some (str "A")) (Some (str "Movie")) None None None
           (Some (str "January 1, 2020")) (Some (str "PG")) (Some (str "90 min"))
           (Some (str "Drama, Comedy, Drama"));
   csv_row (Some (str "B")) (Some (str "TV Show")) None (Some (str "X, Y"))
           (Some (str "India")) (Some (str "not a date")) (Some (str "PG"))
           (Some (str "3 Seasons")) (Some (str "Drama"))].

(** A reader of dates that knows one date, enough to run the scenarios. *)
Definition sample_strptime (fmt s : pystr) : option timestamp :=
  if pystr_eqb fmt date_format && pystr_eqb s (str "January 1, 2020")
  then Some sample_date else None.

(** A stand-in for [WordCloud.generate], enough to run the scenarios: it
    finds no word in the empty text and none in the text "A", the article
    being a stop word. *)
Definition sample_generate (text : pystr) : result unit :=
  if pystr_eqb text [] || pystr_eqb text (str "A") then Raise ValueError else Ok tt.


(** ** Further notions, for the properties of the code beyond the claims *)

(** The sum of the counts of a table. *)
Definition total (c : counter) : nat := fold_right (fun e acc => snd e + acc) 0 c.

(** A row lacks one of the three required fields. *)
Definition lacks_required (r : row) : bool := negb (has_required r).

(** The duration of a row parses to NaN, as movie minutes and as a season count. *)
Definition movie_duration_isna (r : row) : bool :=
  match parse_movie_duration (cell_value (duration r)) with
  | Ok v => isna v
  | Raise _ => false
  end.


(** The date of a row does not parse under the notebook's format. *)
Definition date_fails (strptime : pystr -> pystr -> option timestamp) (r : row) : bool :=
  negb (date_notna (to_datetime strptime date_format (date_added r))).

(** A string without white space at either end. *)
Definition trimmed (s : pystr) : Prop := lstrip s = s /\ rstrip s = s.

(** The tokens that one row adds to the country table, to the genre list
    and to the cast list. *)
Definition country_value (r : row) : list pystr :=
  match country r with
  | Some s => if pystr_eqb s No_Data then [] else [s]
  | None => []
  end.

Definition genre_tokens (r : row) : list pystr :=
  match listed_in r with
  | Some s => map strip (split_go (str ",") [] 0 s)
  | None => []
  end.

Definition cast_tokens (r : row) : list pystr :=
  match cast r with
  | Some s => if pystr_eqb s No_Data then [] else map strip (split_go (str ", ") [] 0 s)
  | None => []
  end.

(** [float] refuses the duration of a row that the movie parser lets through
    to it. *)
Definition movie_duration_raises (r : row) : bool :=
  match parse_movie_duration (cell_value (duration r)) with
  | Ok _ => false
  | Raise _ => true
  end.

(** A row of the file reaches the aggregations: it has the required fields
    and its date parses. *)
Definition reaches_aggregation (strptime : pystr -> pystr -> option timestamp)
           (r : row) : bool :=
  has_required r && negb (date_fails strptime r).

(** How a row of the file looks in [df] after the cleaning cell and the
    date cell. *)
Definition prepared_from (strptime : pystr -> pystr -> option timestamp)
           (r r' : row) : Prop :=
  (exists t, to_datetime strptime date_format (date_added r) = DStamp t /\
             date_added r' = DStamp t /\ added_year r' = Some (year t) /\
             added_month r' = Some (month t) /\ added_day r' = Some (day t)) /\
  (title r' = title r /\ type_ r' = type_ r /\ rating r' = rating r /\
   duration r' = duration r /\ listed_in r' = listed_in r) /\
  (country r' = Some (default No_Data (country r)) /\
   cast r' = Some (default No_Data (cast r)) /\
   director r' = Some (default No_Data (director r))).




(** A row as the cleaning cell and the date cell leave it: the required
    fields and the three filled columns are present, the date is parsed and
    its year, month and day are set. *)
Definition prepared (r : row) : Prop :=
  notna (rating r) = true /\ notna (duration r) = true /\
  notna (country r) = true /\ notna (cast r) = true /\ notna (director r) = true /\
  exists t, date_added r = DStamp t /\ added_year r = Some (year t) /\
            added_month r = Some (month t) /\ added_day r = Some (day t).

(** ** Tactics for running a cell

    [nb_step] unfolds the operations of the notebook monad and reads the
    fields of the state they build; [nb_run H] does so repeatedly, looking
    up [df] with the equation [H]. *)
Ltac nb_step :=
  unfold nb_bind, lookup_var, rows_of, new_frame, assign_df, assign_df_movies,
    assign_df_shows, assign_top_countries, assign_top10_genres, assign_top_actors,
    store, print, lift, raise, ret;
  cbn [df df_movies heap df_shows stdout top_countries top10_genres top_actors fst snd].

Ltac nb_run H := repeat (nb_step; try rewrite !H).

(* ===================================================================== *)
(** * Part II: properties                                                 *)
(* ===================================================================== *)

(** ** Characters and strings *)

Lemma ascii_eqb_eq (a b : ascii) : ascii_eqb a b = true <-> a = b.
Proof.
  unfold ascii_eqb, code. rewrite N.eqb_eq. split.
  - intros H. rewrite <- (ascii_N_embedding a), <- (ascii_N_embedding b). now f_equal.
  - now intros ->.
Qed.

Lemma ascii_eqb_refl (a : ascii) : ascii_eqb a a = true.
Proof. now apply ascii_eqb_eq. Qed.

Lemma pystr_eqb_eq (a b : pystr) : pystr_eqb a b = true <-> a = b.
Proof.
  revert b. induction a as [|x a IH]; intros [|y b]; simpl; try easy.
  rewrite andb_true_iff, ascii_eqb_eq, IH. split.
  - now intros [-> ->].
  - intros H. now inversion H.
Qed.

Lemma pystr_eqb_refl (a : pystr) : pystr_eqb a a = true.
Proof. now apply pystr_eqb_eq. Qed.

Lemma pystr_eqb_neq (a b : pystr) : pystr_eqb a b = false <-> a <> b.
Proof.
  rewrite <- pystr_eqb_eq. destruct (pystr_eqb a b); split; congruence.
Qed.

Lemma pystr_eqb_sym (a b : pystr) : pystr_eqb a b = pystr_eqb b a.
Proof.
  destruct (pystr_eqb b a) eqn:E.
  - apply pystr_eqb_eq in E. subst. apply pystr_eqb_refl.
  - apply pystr_eqb_neq. apply pystr_eqb_neq in E. congruence.
Qed.

Lemma lstrip_head (s : pystr) :
  lstrip s = [] \/ exists c r, lstrip s = c :: r /\ isspace c = false.
Proof.
  induction s as [|c s IH]; simpl; [now left|].
  destruct (isspace c) eqn:E; [exact IH|]. right. now exists c, s.
Qed.

Lemma lstrip_nonspace (c : ascii) (r : pystr) :
  isspace c = false -> lstrip (c :: r) = c :: r.
Proof. intros H. simpl. now rewrite H. Qed.

Lemma rstrip_snoc (a : pystr) (c : ascii) :
  rstrip (a ++ [c]) = if isspace c then rstrip a else a ++ [c].
Proof.
  unfold rstrip. rewrite rev_app_distr. simpl.
  destruct (isspace c); [reflexivity|].
  simpl. now rewrite rev_involutive.
Qed.

Lemma token_prefix_snoc_space (a : pystr) (c : ascii) :
  isspace c = true -> token_prefix (a ++ [c]) = token_prefix a.
Proof.
  intros H. induction a as [|x a IH]; simpl.
  - now rewrite H.
  - destruct (isspace x); [reflexivity|]. now rewrite IH.
Qed.

Lemma token_prefix_rstrip (y : pystr) : token_prefix (rstrip y) = token_prefix y.
Proof.
  induction y as [|c a IH] using rev_ind; [reflexivity|].
  rewrite rstrip_snoc. destruct (isspace c) eqn:E; [|reflexivity].
  now rewrite IH, token_prefix_snoc_space.
Qed.

Lemma rstrip_cons_nonspace (c : ascii) (y : pystr) :
  isspace c = false -> exists t, rstrip (c :: y) = c :: t.
Proof.
  intros Hc. induction y as [|d a IH] using rev_ind.
  - exists []. unfold rstrip. simpl. now rewrite Hc.
  - change (c :: a ++ [d]) with ((c :: a) ++ [d]). rewrite rstrip_snoc.
    destruct (isspace d); [exact IH|]. now exists (a ++ [d]).
Qed.

Lemma lstrip_strip (s : pystr) : lstrip (strip s) = strip s.
Proof.
  unfold strip. destruct (lstrip_head s) as [E|(c & r & E & Hc)]; rewrite E.
  - reflexivity.
  - destruct (rstrip_cons_nonspace c r Hc) as [t Ht]. rewrite Ht.
    now apply lstrip_nonspace.
Qed.

(** Trimming a string does not change its leading token. *)
Lemma leading_token_strip (s : pystr) : leading_token (strip s) = leading_token s.
Proof.
  unfold leading_token. rewrite lstrip_strip. unfold strip.
  apply token_prefix_rstrip.
Qed.

Lemma split_ws_go_head (s tok : pystr) :
  tok <> [] -> exists rest, split_ws_go tok s = (rev tok ++ token_prefix s) :: rest.
Proof.
  revert tok. induction s as [|c s IH]; intros tok Htok; simpl.
  - destruct tok; [congruence|]. rewrite app_nil_r. now eexists.
  - destruct (isspace c).
    + destruct tok; [congruence|]. rewrite app_nil_r. now eexists.
    + destruct (IH (c :: tok)) as [rest Hrest]; [congruence|].
      exists rest. rewrite Hrest. simpl. now rewrite <- app_assoc.
Qed.

Lemma split_ws_lstrip (s : pystr) : split_ws s = split_ws (lstrip s).
Proof.
  unfold split_ws. induction s as [|c s IH]; simpl; [reflexivity|].
  destruct (isspace c) eqn:E; [exact IH|]. simpl. now rewrite E.
Qed.

(** [s.split()[0]] is the leading token, and exists as soon as [s] has a
    character that is not white space. *)
Lemma split_ws_item0 (s : pystr) :
  lstrip s <> [] -> item0 (split_ws s) = Ok (leading_token s).
Proof.
  intros H. rewrite split_ws_lstrip. unfold leading_token.
  destruct (lstrip_head s) as [E|(c & r & E & Hc)]; [congruence|].
  rewrite E. unfold split_ws. simpl. rewrite Hc.
  destruct (split_ws_go_head r [c]) as [rest Hrest]; [congruence|].
  rewrite Hrest. reflexivity.
Qed.

Lemma startswith_cons_inv (c : ascii) (p s : pystr) :
  startswith (c :: p) s = true -> exists r, s = c :: r.
Proof.
  destruct s as [|y s]; simpl; [discriminate|].
  rewrite andb_true_iff, ascii_eqb_eq. intros [-> _]. now eexists.
Qed.

Lemma contains_lstrip (c : ascii) (p s : pystr) :
  isspace c = false -> contains (c :: p) s = true -> lstrip s <> [].
Proof.
  intros Hc. induction s as [|y s IH]; intros H.
  - simpl in H. discriminate.
  - cbn [contains] in H. apply orb_true_iff in H. destruct H as [H|H].
    + apply startswith_cons_inv in H. destruct H as [r Hr]. inversion Hr; subst.
      rewrite lstrip_nonspace by assumption. discriminate.
    + specialize (IH H). simpl. destruct (isspace y); [assumption|discriminate].
Qed.

Lemma endswith_nonempty (c : ascii) (p s : pystr) :
  endswith (p ++ [c]) s = true -> s <> [].
Proof.
  unfold endswith. rewrite rev_app_distr. simpl. intros H ->. discriminate.
Qed.

(** ** The season parser *)

(** What [parse_seasons] computes on a string, with [x.split()[0]] read as
    the leading token. *)
Lemma parse_seasons_str (s : pystr) :
  parse_seasons (VStr s) =
  if contains (str "Season") s then
    match py_int (leading_token s) with
    | Ok z => Ok (VInt z)
    | Raise _ => Ok nan
    end
  else Ok nan.
Proof.
  unfold parse_seasons. destruct (contains (str "Season") s) eqn:E; [|reflexivity].
  rewrite split_ws_item0.
  - simpl. unfold py_int.
    destruct (take_sign (strip (leading_token s))) as [neg body].
    destruct (int_digits 0 0 false body) as [[v n]|]; [|reflexivity].
    destruct (int_max_str_digits <? n)%nat; reflexivity.
  - apply (contains_lstrip "S"%char (str "eason")); [reflexivity|exact E].
Qed.

(** C10. The season parser is total: on every value, a string or not, with
    or without "Season", with or without an integer in front, it returns
    an integer or NaN and never raises. *)
Theorem parse_seasons_total (x : pyval) :
  (exists z, parse_seasons x = Ok (VInt z)) \/ parse_seasons x = Ok nan.
Proof.
  destruct x as [s|z|f|]; try (right; reflexivity).
  rewrite parse_seasons_str.
  destruct (contains (str "Season") s); [|now right].
  destruct (py_int (leading_token s)) as [z|e]; [left; now exists z|now right].
Qed.

(** ** The movie duration parser *)

(** What [parse_movie_duration] computes on a string: the exception of
    [float], if any, leaves the function. *)
Lemma parse_movie_duration_str (s : pystr) :
  parse_movie_duration (VStr s) =
  if endswith (str "min") (strip s) then
    match py_float (leading_token s) with
    | Ok f => Ok (VFloat f)
    | Raise e => Raise e
    end
  else Ok nan.
Proof.
  unfold parse_movie_duration.
  destruct (endswith (str "min") (strip s)) eqn:E; [|reflexivity].
  rewrite split_ws_item0.
  - simpl. rewrite leading_token_strip.
    destruct (py_float (leading_token s)); reflexivity.
  - rewrite lstrip_strip. apply (endswith_nonempty "n"%char (str "mi")). exact E.
Qed.

Lemma py_float_raises_ValueError (s : pystr) (e : exn) :
  py_float s = Raise e -> e = ValueError.
Proof.
  unfold py_float. destruct (drop_underscores zero (strip s)) as [t|]; [|congruence].
  destruct (take_sign t) as [neg body].
  destruct (parse_decimal neg body); [congruence|].
  destruct (parse_inf_nan neg body); congruence.
Qed.

(** The only exception of [parse_movie_duration] is the [ValueError] of
    [float], raised when the string ends in "min" and its leading token is
    not a number. *)
Lemma parse_movie_duration_raise_iff (x : pyval) (e : exn) :
  parse_movie_duration x = Raise e <->
  exists s, x = VStr s /\ endswith (str "min") (strip s) = true /\
            py_float (leading_token s) = Raise ValueError /\ e = ValueError.
Proof.
  split.
  - destruct x as [s|z|f|]; try discriminate.
    rewrite parse_movie_duration_str.
    destruct (endswith (str "min") (strip s)) eqn:E; [|discriminate].
    destruct (py_float (leading_token s)) as [f|e'] eqn:F; [discriminate|].
    intros H. injection H as <-.
    pose proof (py_float_raises_ValueError _ _ F) as ->. now exists s.
  - intros (s & -> & E & F & ->). rewrite parse_movie_duration_str, E, F. reflexivity.
Qed.

Lemma digit_char_facts (c : ascii) :
  isdigit c = true ->
  isspace c = false /\ ascii_eqb c underscore = false /\
  ascii_eqb c "-"%char = false /\ ascii_eqb c "+"%char = false /\
  ascii_eqb c "."%char = false.
Proof.
  destruct c as [[] [] [] [] [] [] [] []]; intros H; try discriminate H;
    repeat split; reflexivity.
Qed.

Lemma lstrip_id (t : pystr) : Forall (fun c => isspace c = false) t -> lstrip t = t.
Proof. intros [|c r Hc _]; [reflexivity|]. now apply lstrip_nonspace. Qed.

(** A string without white space is its own [strip]. *)
Lemma strip_id (t : pystr) : Forall (fun c => isspace c = false) t -> strip t = t.
Proof.
  intros H. unfold strip, rstrip. rewrite (lstrip_id t H).
  rewrite lstrip_id by now apply Forall_rev. apply rev_involutive.
Qed.

Lemma token_prefix_nonspace (s : pystr) :
  Forall (fun c => isspace c = false) (token_prefix s).
Proof.
  induction s as [|c s IH]; simpl; [constructor|].
  destruct (isspace c) eqn:E; constructor; assumption.
Qed.

Lemma strip_leading_token (s : pystr) : strip (leading_token s) = leading_token s.
Proof. apply strip_id, token_prefix_nonspace. Qed.

Lemma all_digits_Forall (ds : pystr) :
  all_digits ds = true -> ds <> [] /\ Forall (fun c => isdigit c = true) ds.
Proof.
  destruct ds as [|c r]; [discriminate|]. unfold all_digits. intros H.
  split; [discriminate|]. apply List.Forall_forall. now apply forallb_forall.
Qed.

Lemma drop_underscores_digits (prev : ascii) (ds : pystr) :
  ascii_eqb prev underscore = false ->
  Forall (fun c => isdigit c = true) ds ->
  drop_underscores prev ds = Some ds.
Proof.
  intros Hp H. revert prev Hp. induction H as [|c r Hc _ IH]; intros prev Hp; simpl.
  - now rewrite Hp.
  - destruct (digit_char_facts c Hc) as (_ & Hu & _).
    rewrite Hu, Hp, (IH c Hu). reflexivity.
Qed.

Lemma span_digits_all (ds : pystr) :
  Forall (fun c => isdigit c = true) ds -> span_digits ds = (ds, []).
Proof.
  induction 1 as [|c r Hc _ IH]; simpl; [reflexivity|]. now rewrite Hc, IH.
Qed.

Lemma round_half_even_1 (a : Z) : round_half_even a 1 = a.
Proof. unfold round_half_even. now rewrite Z.div_1_r, Z.mod_1_r. Qed.

Lemma strip_twos_pow (k : nat) (M : Z) :
  strip_twos k (M * 2 ^ Z.of_nat k)%Z (Z.of_nat k) = (M, 0%Z).
Proof.
  induction k as [|k IH]; cbn [strip_twos].
  - now rewrite Z.mul_1_r.
  - replace (0 <? Z.of_nat (S k))%Z with true by (symmetry; apply Z.ltb_lt; lia).
    replace (Z.of_nat (S k)) with (Z.of_nat k + 1)%Z by lia.
    rewrite Z.pow_add_r, Z.pow_1_r by lia.
    replace (M * (2 ^ Z.of_nat k * 2))%Z with (2 * (M * 2 ^ Z.of_nat k))%Z by ring.
    rewrite Z.even_mul. cbn [Z.even orb andb].
    rewrite (Z.mul_comm 2), Z.div_mul by lia.
    replace (Z.of_nat k + 1 - 1)%Z with (Z.of_nat k) by lia. exact IH.
Qed.

Lemma dyadic_int (neg : bool) (m k : Z) :
  (0 <= m)%Z -> (0 <= k)%Z ->
  dyadic neg (m * 2 ^ k)%Z (- k)%Z = Finite neg (Z.to_N m) 0.
Proof.
  intros Hm Hk. unfold dyadic.
  destruct (Z.eq_dec k 0%Z) as [->|Hne].
  - cbn. now rewrite !Z.mul_1_r.
  - replace (0 <=? - k)%Z with false by (symmetry; apply Z.leb_gt; lia).
    rewrite Z.opp_involutive.
    rewrite <- (Z2Nat.id k) at 2 3 by lia. rewrite strip_twos_pow.
    cbn. now rewrite Z.mul_1_r.
Qed.

(** An integer up to [2^53] is a double: rounding leaves it as it is. *)
Lemma to_double_int (neg : bool) (m : N) :
  (m <= 2 ^ 53)%N -> to_double neg m 0 = Finite neg m 0.
Proof.
  intros Hm. unfold to_double.
  destruct (m =? 0)%N eqn:E0; [apply N.eqb_eq in E0; now subst|].
  apply N.eqb_neq in E0.
  assert (Hpos : (0 < Z.of_N m)%Z) by lia.
  assert (Hle : (Z.of_N m <= 2 ^ 53)%Z)
    by (change (2 ^ 53)%Z with (Z.of_N (2 ^ 53)); lia).
  pose proof (Z.log2_spec _ Hpos) as [Hlo Hhi].
  pose proof (Z.log2_nonneg (Z.of_N m)) as Hd0.
  set (d := Z.log2 (Z.of_N m)) in *.
  assert (Hd : (d <= 53)%Z).
  { destruct (Z_le_gt_dec d 53) as [|Hgt]; [assumption|].
    assert (H54 : (2 ^ 54 <= 2 ^ d)%Z) by (apply Z.pow_le_mono_r; lia).
    change (2 ^ 53)%Z with 9007199254740992%Z in Hle.
    change (2 ^ 54)%Z with 18014398509481984%Z in H54. lia. }
  cbn [Z.leb Z.ltb Z.compare andb].
  replace (1024 <=? d + 3 * 0)%Z with false by (symmetry; apply Z.leb_gt; lia).
  cbn [andb]. rewrite Z.pow_0_r, Z.mul_1_r. change (Z.log2 1) with 0%Z.
  rewrite Z.sub_0_r. fold d.
  replace (0 <=? d)%Z with true by (symmetry; apply Z.leb_le; lia).
  rewrite Z.mul_1_l.
  replace (2 ^ d <=? Z.of_N m)%Z with true by (symmetry; apply Z.leb_le; lia).
  replace (Z.max (d - 52) (-1074)) with (d - 52)%Z by lia.
  destruct (Z_le_gt_dec 52 d) as [Hge|Hlt].
  - replace (0 <=? d - 52)%Z with true by (symmetry; apply Z.leb_le; lia).
    assert (Hcase : d = 52%Z \/ d = 53%Z) by lia.
    destruct Hcase as [Hd52|Hd53].
    + rewrite Hd52. change (52 - 52)%Z with 0%Z. rewrite Z.pow_0_r, round_half_even_1.
      replace (0 <? Z.of_N m)%Z with true by (symmetry; apply Z.ltb_lt; lia).
      fold d. rewrite Hd52. cbn [andb]. change (1024 <=? 52 + 0)%Z with false.
      unfold dyadic. cbn [Z.leb Z.compare]. rewrite Z.pow_0_r, Z.mul_1_r.
      now rewrite N2Z.id.
    + assert (Hm53 : Z.of_N m = (2 ^ 53)%Z) by (rewrite Hd53 in Hlo; lia).
      assert (m = 9007199254740992%N)
        by (change (2 ^ 53)%Z with 9007199254740992%Z in Hm53; lia).
      subst m. unfold d. vm_compute. reflexivity.
  - replace (0 <=? d - 52)%Z with false by (symmetry; apply Z.leb_gt; lia).
    rewrite round_half_even_1.
    replace (- (d - 52))%Z with (52 - d)%Z by lia.
    assert (Hlog : Z.log2 (Z.of_N m * 2 ^ (52 - d)) = 52%Z).
    { rewrite Z.log2_mul_pow2 by lia. fold d. lia. }
    rewrite Hlog.
    replace (0 <? Z.of_N m * 2 ^ (52 - d))%Z with true
      by (symmetry; apply Z.ltb_lt; apply Z.mul_pos_pos;
          [lia|apply Z.pow_pos_nonneg; lia]).
    cbn [andb].
    replace (1024 <=? 52 + (d - 52))%Z with false by (symmetry; apply Z.leb_gt; lia).
    replace (d - 52)%Z with (- (52 - d))%Z by lia.
    rewrite dyadic_int by lia. now rewrite N2Z.id.
Qed.

(** Rounding keeps the sign and never yields NaN. *)
Lemma to_double_sign (neg : bool) (m : N) (e : Z) :
  (exists m' e', to_double neg m e = Finite neg m' e') \/ to_double neg m e = Inf neg.
Proof.
  unfold to_double, dyadic.
  repeat match goal with
         | |- context [if ?b then _ else _] => destruct b
         | |- context [let (_, _) := ?p in _] => destruct p
         end; (now right) || (left; now eexists _, _).
Qed.

(** [float] of a string of digits is the double nearest to the number the
    digits denote. *)
Lemma py_float_digits (ds : pystr) :
  all_digits ds = true -> py_float ds = Ok (to_double false (digits_val ds) 0).
Proof.
  intros H. destruct (all_digits_Forall ds H) as [Hne Hd].
  unfold py_float.
  rewrite strip_id
    by (eapply List.Forall_impl; [|exact Hd]; intros c Hc; apply (digit_char_facts c Hc)).
  rewrite drop_underscores_digits by (reflexivity || assumption).
  destruct ds as [|c r]; [congruence|].
  assert (Hc : isdigit c = true) by now inversion Hd.
  destruct (digit_char_facts c Hc) as (_ & _ & Hm & Hp & _).
  unfold take_sign. rewrite Hm, Hp.
  unfold parse_decimal. rewrite (span_digits_all _ Hd). simpl app.
  rewrite app_nil_r. reflexivity.
Qed.

Lemma drop_underscores_head (c : ascii) (r t : pystr) :
  drop_underscores zero (c :: r) = Some t -> exists t', t = c :: t'.
Proof.
  simpl. destruct (ascii_eqb c underscore); [discriminate|]. simpl.
  destruct (drop_underscores c r) as [t'|]; [|discriminate].
  simpl. intros H. injection H as <-. now eexists.
Qed.

(** [float] yields a negative number only for a string with a minus sign
    in front. *)
Lemma py_float_sign (s : pystr) (f : pyfloat) :
  py_float s = Ok f ->
  startswith (str "-") (strip s) = false ->
  f = FNaN \/ float_nonneg f = true.
Proof.
  unfold py_float. intros H Hs.
  destruct (drop_underscores zero (strip s)) as [t|] eqn:D; [|discriminate].
  assert (Hneg : fst (take_sign t) = false).
  { destruct (strip s) as [|c r]; simpl in D.
    - injection D as <-. reflexivity.
    - apply drop_underscores_head in D. destruct D as [t' ->].
      simpl in Hs. rewrite andb_true_r in Hs.
      assert (Hm : ascii_eqb c "-"%char = false)
        by (unfold ascii_eqb in *; now rewrite N.eqb_sym).
      unfold take_sign. rewrite Hm.
      destruct (ascii_eqb c "+"%char); reflexivity. }
  destruct (take_sign t) as [neg body]. simpl in Hneg. subst neg.
  destruct (parse_decimal false body) as [g|] eqn:P.
  - injection H as <-. right. unfold parse_decimal in P.
    destruct (span_digits body) as [ip r1].
    destruct (match r1 with
              | [] => ([], r1)
              | c :: r => if ascii_eqb c "."%char then span_digits r else ([], r1)
              end) as [fp r2].
    destruct (ip ++ fp); [discriminate|].
    destruct (parse_exponent r2) as [ex r3]. destruct r3; [|discriminate].
    injection P as <-.
    match goal with
    | |- float_nonneg (to_double false ?m ?e) = true =>
        destruct (to_double_sign false m e) as [(m' & e' & ->)| ->]; reflexivity
    end.
  - unfold parse_inf_nan in H.
    destruct (pystr_eqb (map tolower body) (str "inf")
              || pystr_eqb (map tolower body) (str "infinity")).
    + injection H as <-. now right.
    + destruct (pystr_eqb (map tolower body) (str "nan")); [|discriminate].
      injection H as <-. now left.
Qed.

(** C2. On a string that ends in "min" and whose leading token is not a
    number, [parse_movie_duration] raises [ValueError] instead of yielding
    NaN, and the movie cell stops with that exception; the season parser
    yields NaN on the like input. *)
Theorem parse_movie_duration_raises :
  parse_movie_duration (VStr (str "abc min")) = Raise ValueError /\
  fst (cell_movies (loaded word_minutes_table)) = Raise ValueError /\
  parse_seasons (VStr (str "abc Season")) = Ok nan.
Proof. repeat split; vm_compute; reflexivity. Qed.

(** ** Running the cells *)

Lemma frame_at_insert_eq (h : gmap nat frame) (l : nat) (f : frame) :
  frame_at (<[l := f]> h) l = f.
Proof. unfold frame_at. now rewrite lookup_insert_eq. Qed.

Lemma fresh_unbound (h : gmap nat frame) : h !! fresh (dom h) = None.
Proof. apply not_elem_of_dom, is_fresh. Qed.

Lemma insert_bound (h : gmap nat frame) (l d : nat) (f : frame) :
  is_Some (h !! d) -> is_Some (<[l := f]> h !! d).
Proof.
  intros Hd. destruct (decide (l = d)) as [->|Hne].
  - rewrite lookup_insert_eq. now eexists.
  - now rewrite lookup_insert_ne.
Qed.

(** The movie cell, step by step: two new objects (the selection and its
    copy), the new column written into the copy, and a third object for
    the rows that are kept.  Nothing is written to an object that existed
    before. *)
Lemma cell_movies_run (st : state) (d : nat) :
  df st = Some d ->
  exists l1 l2 l3 h1 h2,
    let movies := List.filter is_movie (frame_at (heap st) d) in
    heap st !! l1 = None /\ h1 = <[l1 := movies]> (heap st) /\
    h1 !! l2 = None /\ h2 = <[l2 := movies]> h1 /\
    match apply parse_movie_duration (map (fun r => cell_value (duration r)) movies) with
    | Raise e =>
        fst (cell_movies st) = Raise e /\
        heap (snd (cell_movies st)) = h2 /\
        df_movies (snd (cell_movies st)) = Some l2 /\
        stdout (snd (cell_movies st)) = stdout st
    | Ok col =>
        let fm := set_column (fun v => set_duration_int (Some v)) col movies in
        let kept := List.filter (fun r => negb (col_isna (duration_int r))) fm in
        fst (cell_movies st) = Ok tt /\
        (<[l2 := fm]> h2) !! l3 = None /\
        heap (snd (cell_movies st)) = <[l3 := kept]> (<[l2 := fm]> h2) /\
        df_movies (snd (cell_movies st)) = Some l3 /\
        stdout (snd (cell_movies st)) =
          stdout st ++
          [Print_bad_durations (count_rows (fun r => col_isna (duration_int r)) fm);
           Plot_durations (map duration_int kept)]
    end /\
    df (snd (cell_movies st)) = Some d /\
    df_shows (snd (cell_movies st)) = df_shows st /\
    top_countries (snd (cell_movies st)) = top_countries st /\
    top10_genres (snd (cell_movies st)) = top10_genres st /\
    top_actors (snd (cell_movies st)) = top_actors st.
Proof.
  intros H.
  set (movies := List.filter is_movie (frame_at (heap st) d)).
  set (l1 := fresh (dom (heap st))).
  set (h1 := <[l1 := movies]> (heap st)).
  set (l2 := fresh (dom h1)).
  set (h2 := <[l2 := movies]> h1).
  exists l1, l2.
  destruct (apply parse_movie_duration (map (fun r => cell_value (duration r)) movies))
    as [col|e] eqn:E.
  - set (fm := set_column (fun v => set_duration_int (Some v)) col movies).
    exists (fresh (dom (<[l2 := fm]> h2))), h1, h2.
    cbv zeta. rewrite E.
    unfold cell_movies. nb_step. rewrite H. nb_step.
    rewrite !frame_at_insert_eq. fold is_movie. fold movies.
    fold l1. fold h1. fold l2. fold h2. rewrite E. nb_step.
    rewrite !frame_at_insert_eq. fold fm.
    repeat split; try apply fresh_unbound; try reflexivity; try assumption.
    now rewrite <- app_assoc.
  - exists 0, h1, h2. cbv zeta. rewrite E.
    unfold cell_movies. nb_step. rewrite H. nb_step.
    rewrite !frame_at_insert_eq. fold is_movie. fold movies.
    fold l1. fold h1. fold l2. fold h2. rewrite E. nb_step.
    repeat split; try apply fresh_unbound; try reflexivity; try assumption.
Qed.

(** The season cell has the same shape. *)
Lemma cell_shows_run (st : state) (d : nat) :
  df st = Some d ->
  exists l1 l2 l3 h1 h2,
    let shows := List.filter is_show (frame_at (heap st) d) in
    heap st !! l1 = None /\ h1 = <[l1 := shows]> (heap st) /\
    h1 !! l2 = None /\ h2 = <[l2 := shows]> h1 /\
    match apply parse_seasons (map (fun r => cell_value (duration r)) shows) with
    | Raise e =>
        fst (cell_shows st) = Raise e /\
        heap (snd (cell_shows st)) = h2 /\
        df_shows (snd (cell_shows st)) = Some l2 /\
        stdout (snd (cell_shows st)) = stdout st
    | Ok col =>
        let fs := set_column (fun v => set_seasons (Some v)) col shows in
        let kept := List.filter (fun r => negb (col_isna (seasons r))) fs in
        fst (cell_shows st) = Ok tt /\
        (<[l2 := fs]> h2) !! l3 = None /\
        heap (snd (cell_shows st)) = <[l3 := kept]> (<[l2 := fs]> h2) /\
        df_shows (snd (cell_shows st)) = Some l3 /\
        stdout (snd (cell_shows st)) =
          stdout st ++
          [Print_fail_count (count_rows (fun r => col_isna (seasons r)) fs);
           Plot_seasons (map seasons kept)]
    end /\
    df (snd (cell_shows st)) = Some d /\
    df_movies (snd (cell_shows st)) = df_movies st /\
    top_countries (snd (cell_shows st)) = top_countries st /\
    top10_genres (snd (cell_shows st)) = top10_genres st /\
    top_actors (snd (cell_shows st)) = top_actors st.
Proof.
  intros H.
  set (shows := List.filter is_show (frame_at (heap st) d)).
  set (l1 := fresh (dom (heap st))).
  set (h1 := <[l1 := shows]> (heap st)).
  set (l2 := fresh (dom h1)).
  set (h2 := <[l2 := shows]> h1).
  exists l1, l2.
  destruct (apply parse_seasons (map (fun r => cell_value (duration r)) shows))
    as [col|e] eqn:E.
  - set (fs := set_column (fun v => set_seasons (Some v)) col shows).
    exists (fresh (dom (<[l2 := fs]> h2))), h1, h2.
    cbv zeta. rewrite E.
    unfold cell_shows. nb_step. rewrite H. nb_step.
    rewrite !frame_at_insert_eq. fold is_show. fold shows.
    fold l1. fold h1. fold l2. fold h2. rewrite E. nb_step.
    rewrite !frame_at_insert_eq. fold fs.
    repeat split; try apply fresh_unbound; try reflexivity; try assumption.
    now rewrite <- app_assoc.
  - exists 0, h1, h2. cbv zeta. rewrite E.
    unfold cell_shows. nb_step. rewrite H. nb_step.
    rewrite !frame_at_insert_eq. fold is_show. fold shows.
    fold l1. fold h1. fold l2. fold h2. rewrite E. nb_step.
    repeat split; try apply fresh_unbound; try reflexivity; try assumption.
Qed.

(** The actor cell reads the rows of [df] and sets [top_actors]. *)
Lemma cell_actors_run (st : state) (d : nat) :
  df st = Some d ->
  fst (cell_actors st) = (let* _ := top_actors_of (frame_at (heap st) d) in Ok tt) /\
  top_actors (snd (cell_actors st)) =
    match top_actors_of (frame_at (heap st) d) with
    | Ok c => c
    | Raise _ => top_actors st
    end /\
  heap (snd (cell_actors st)) = heap st /\
  df (snd (cell_actors st)) = df st /\
  df_movies (snd (cell_actors st)) = df_movies st /\
  df_shows (snd (cell_actors st)) = df_shows st.
Proof.
  intros H. unfold cell_actors, top_actors_of. nb_step. rewrite H. nb_step.
  destruct (cast_series (frame_at (heap st) d)) as [series|e]; simpl;
    [|repeat split; congruence].
  destruct (flat_cast_list series) as [flat|e]; simpl; repeat split; congruence.
Qed.

Section CellRuns.

Variable sort_values : counter -> counter.

(** The country and genre cell reads the rows of [df], prints the number
    of distinct country values and sets the two rankings. *)
Lemma cell_country_genre_run (st : state) (d : nat) :
  df st = Some d ->
  let f := frame_at (heap st) d in
  let st' := snd (cell_country_genre sort_values st) in
  fst (cell_country_genre sort_values st) = (let* _ := top10_genres_of f in Ok tt) /\
  top_countries st' = top_countries_of sort_values f /\
  top10_genres st' =
    match top10_genres_of f with Ok c => c | Raise _ => top10_genres st end /\
  stdout st' = stdout st ++ [Print_unique_countries (nunique (country_series f))] /\
  heap st' = heap st /\ df st' = df st /\
  df_movies st' = df_movies st /\ df_shows st' = df_shows st /\
  top_actors st' = top_actors st.
Proof.
  intros H. cbv zeta. unfold cell_country_genre, top10_genres_of.
  nb_run H.
  destruct (all_genres_of (frame_at (heap st) d)) as [g|e]; simpl;
    repeat split; congruence.
Qed.

End CellRuns.

Lemma unbound_ne (h : gmap nat frame) (l d : nat) :
  h !! l = None -> is_Some (h !! d) -> l <> d.
Proof. intros Hl Hd ->. rewrite Hl in Hd. now destruct Hd. Qed.

(** The movie cell leaves [df] bound to the same object, with the same
    rows, and binds [df_movies] to another object. *)
Lemma cell_movies_frame (st : state) (d : nat) :
  df st = Some d -> is_Some (heap st !! d) ->
  let st' := snd (cell_movies st) in
  df st' = Some d /\ heap st' !! d = heap st !! d /\ df_movies st' <> Some d /\
  movies_frame st' = movies_kept (frame_at (heap st) d) /\
  fst (cell_movies st) =
    (let* _ := apply parse_movie_duration
                 (map (fun r => cell_value (duration r))
                      (List.filter is_movie (frame_at (heap st) d))) in Ok tt) /\
  df_shows st' = df_shows st /\ top_countries st' = top_countries st /\
  top10_genres st' = top10_genres st /\ top_actors st' = top_actors st.
Proof.
  intros H Hd. cbv zeta.
  destruct (cell_movies_run st d H)
    as (l1 & l2 & l3 & h1 & h2 & Hl1 & -> & Hl2 & -> & Hcase & Hdf & Hrest).
  unfold movies_frame, movies_kept, frame_of_var.
  pose proof (insert_bound _ l1 d (List.filter is_movie (frame_at (heap st) d)) Hd) as Hd1.
  pose proof (unbound_ne _ _ _ Hl1 Hd) as N1.
  pose proof (unbound_ne _ _ _ Hl2 Hd1) as N2.
  destruct (apply parse_movie_duration _) as [col|e].
  - destruct Hcase as (Hr & Hl3 & Hh & Hm & _).
    assert (N3 : l3 <> d) by (eapply unbound_ne; [exact Hl3|]; now do 2 apply insert_bound).
    rewrite Hh, Hm, Hr, frame_at_insert_eq.
    repeat split; try tauto; try congruence.
    now rewrite !lookup_insert_ne by assumption.
  - destruct Hcase as (Hr & Hh & Hm & _).
    rewrite Hh, Hm, Hr, frame_at_insert_eq.
    repeat split; try tauto; try congruence.
    now rewrite !lookup_insert_ne by assumption.
Qed.

Lemma cell_shows_frame (st : state) (d : nat) :
  df st = Some d -> is_Some (heap st !! d) ->
  let st' := snd (cell_shows st) in
  df st' = Some d /\ heap st' !! d = heap st !! d /\ df_shows st' <> Some d /\
  shows_frame st' = shows_kept (frame_at (heap st) d) /\
  fst (cell_shows st) =
    (let* _ := apply parse_seasons
                 (map (fun r => cell_value (duration r))
                      (List.filter is_show (frame_at (heap st) d))) in Ok tt) /\
  df_movies st' = df_movies st /\ top_countries st' = top_countries st /\
  top10_genres st' = top10_genres st /\ top_actors st' = top_actors st.
Proof.
  intros H Hd. cbv zeta.
  destruct (cell_shows_run st d H)
    as (l1 & l2 & l3 & h1 & h2 & Hl1 & -> & Hl2 & -> & Hcase & Hdf & Hrest).
  unfold shows_frame, shows_kept, frame_of_var.
  pose proof (insert_bound _ l1 d (List.filter is_show (frame_at (heap st) d)) Hd) as Hd1.
  pose proof (unbound_ne _ _ _ Hl1 Hd) as N1.
  pose proof (unbound_ne _ _ _ Hl2 Hd1) as N2.
  destruct (apply parse_seasons _) as [col|e].
  - destruct Hcase as (Hr & Hl3 & Hh & Hm & _).
    assert (N3 : l3 <> d) by (eapply unbound_ne; [exact Hl3|]; now do 2 apply insert_bound).
    rewrite Hh, Hm, Hr, frame_at_insert_eq.
    repeat split; try tauto; try congruence.
    now rewrite !lookup_insert_ne by assumption.
  - destruct Hcase as (Hr & Hh & Hm & _).
    rewrite Hh, Hm, Hr, frame_at_insert_eq.
    repeat split; try tauto; try congruence.
    now rewrite !lookup_insert_ne by assumption.
Qed.

(** ** [apply] and the column it fills *)

Lemma in_set_column {A B C : Type} (f : A -> result B) (g : row -> A) (h : B -> C)
      (set : C -> row -> row) (rows : frame) (vals : list B) (r' : row) :
  map_result f (map g rows) = Ok vals ->
  (In r' (set_column set (map h vals) rows) <->
   exists r v, In r rows /\ f (g r) = Ok v /\ r' = set (h v) r).
Proof.
  revert vals. induction rows as [|r0 rows IH]; intros vals H; simpl in H.
  - injection H as <-. simpl. split; [tauto|]. now intros (r & v & [] & _).
  - destruct (f (g r0)) as [v0|e] eqn:E0; [|discriminate]. simpl in H.
    destruct (map_result f (map g rows)) as [vals'|e] eqn:E; [|discriminate].
    simpl in H. injection H as <-.
    unfold set_column. simpl. fold (set_column set (map h vals') rows).
    rewrite (IH vals' eq_refl). split.
    + intros [<-|(r & v & Hin & Hv & ->)].
      * exists r0, v0. auto.
      * exists r, v. auto.
    + intros (r & v & [<-|Hin] & Hv & ->).
      * left. congruence.
      * right. now exists r, v.
Qed.


Lemma map_result_raise {A B : Type} (f : A -> result B) (col : list A) (e : exn) :
  map_result f col = Raise e -> exists a, In a col /\ f a = Raise e.
Proof.
  induction col as [|a col IH]; simpl; [discriminate|].
  destruct (f a) as [b|e'] eqn:E; simpl.
  - destruct (map_result f col) as [bs|e'']; simpl; [discriminate|].
    intros H. injection H as <-. destruct (IH eq_refl) as (a' & Hin & Ha').
    exists a'. auto.
  - intros H. injection H as <-. exists a. auto.
Qed.

Lemma map_result_Forall {A B : Type} (f : A -> result B) (P : B -> Prop)
      (col : list A) (vals : list B) :
  (forall a v, f a = Ok v -> P v) -> map_result f col = Ok vals -> Forall P vals.
Proof.
  intros HP. revert vals. induction col as [|a col IH]; intros vals H; simpl in H.
  - injection H as <-. constructor.
  - destruct (f a) as [v|e] eqn:E; [|discriminate]. simpl in H.
    destruct (map_result f col) as [vals'|e]; [|discriminate].
    simpl in H. injection H as <-. constructor; [now apply (HP a)|now apply IH].
Qed.


Lemma apply_outcome (f : pyval -> result pyval) (col : list pyval) :
  (let* _ := apply f col in Ok tt) = (let* _ := map_result f col in Ok tt).
Proof. unfold apply. now destruct (map_result f col). Qed.


Lemma apply_raise (f : pyval -> result pyval) (col : list pyval) (e : exn) :
  apply f col = Raise e -> exists a, In a col /\ f a = Raise e.
Proof.
  unfold apply. destruct (map_result f col) as [vals|e'] eqn:E; [discriminate|].
  cbn [bind]. intros H. injection H as <-. now apply map_result_raise.
Qed.

(** A float is stored as it is, and an [int] never becomes NaN. *)
Lemma stored_float (vals : list pyval) (v : pyval) :
  is_float v = true -> stored vals v = v.
Proof. destruct v; try discriminate. intros _. unfold stored. now destruct (float64_column vals). Qed.


Lemma parse_movie_duration_float (x v : pyval) :
  parse_movie_duration x = Ok v -> is_float v = true.
Proof.
  destruct x as [s|z|f|]; try (intros H; injection H as <-; reflexivity).
  rewrite parse_movie_duration_str.
  destruct (endswith (str "min") (strip s)).
  - destruct (py_float (leading_token s)); [|discriminate].
    intros H. now injection H as <-.
  - intros H. now injection H as <-.
Qed.

(** The movie parser returns floats only, so the column is what it returns. *)
Lemma apply_movies (col : list pyval) :
  apply parse_movie_duration col = map_result parse_movie_duration col.
Proof.
  unfold apply, maybe_convert_objects.
  destruct (map_result parse_movie_duration col) as [vals|e] eqn:E; [|reflexivity].
  cbn [bind]. f_equal.
  pose proof (map_result_Forall parse_movie_duration (fun v => is_float v = true)
                col vals parse_movie_duration_float E) as HF.
  rewrite <- (map_id vals) at 3. apply map_ext_in.
  intros v Hv. apply stored_float. exact (proj1 (List.Forall_forall _ _) HF v Hv).
Qed.

(** The rows kept in [df_movies] are the Movie rows of [df] whose duration
    parses to a value that is not NaN, with that value in [duration_int]. *)
Lemma in_movies_kept (f : frame) (col : list pyval) (r' : row) :
  apply parse_movie_duration
        (map (fun r => cell_value (duration r)) (List.filter is_movie f)) = Ok col ->
  (In r' (movies_kept f) <->
   exists r v, In r f /\ is_movie r = true /\
               parse_movie_duration (cell_value (duration r)) = Ok v /\
               isna v = false /\ r' = set_duration_int (Some v) r).
Proof.
  intros H. unfold movies_kept. cbv zeta. rewrite H.
  rewrite apply_movies in H.
  rewrite filter_In. rewrite <- (map_id col).
  rewrite (in_set_column parse_movie_duration (fun r => cell_value (duration r))
             (fun v => v) (fun v => set_duration_int (Some v)) _ col r' H).
  split.
  - intros ((r & v & Hin & Hv & ->) & Hna). apply filter_In in Hin.
    exists r, v. simpl in Hna, Hv. apply negb_true_iff in Hna.
    destruct Hin as [Hin Hm]. repeat split; assumption.
  - intros (r & v & Hin & Hm & Hv & Hna & ->). split.
    + exists r, v. rewrite filter_In. auto.
    + simpl. now rewrite Hna.
Qed.







(** ** The duration cells and the main table *)

Lemma frame_at_eq (h h' : gmap nat frame) (d : nat) :
  h' !! d = h !! d -> frame_at h' d = frame_at h d.
Proof. intros E. unfold frame_at. now f_equal. Qed.





(** ** Movie durations *)

Lemma cell_movies_kept (st : state) (d : nat) :
  df st = Some d ->
  movies_frame (snd (cell_movies st)) = movies_kept (frame_at (heap st) d) /\
  fst (cell_movies st) =
    (let* _ := apply parse_movie_duration
                 (map (fun r => cell_value (duration r))
                      (List.filter is_movie (frame_at (heap st) d))) in Ok tt).
Proof.
  intros H.
  destruct (cell_movies_run st d H)
    as (l1 & l2 & l3 & h1 & h2 & _ & -> & _ & -> & Hcase & _).
  unfold movies_frame, movies_kept, frame_of_var.
  destruct (apply parse_movie_duration _) as [col|e].
  - destruct Hcase as (Hr & _ & Hh & Hm & _).
    now rewrite Hh, Hm, Hr, frame_at_insert_eq.
  - destruct Hcase as (Hr & Hh & Hm & _).
    now rewrite Hh, Hm, Hr, frame_at_insert_eq.
Qed.

(** The movie cell raises only the [ValueError] of [float], and does so as
    soon as a Movie row has a duration that ends in "min" with a leading
    token that is not a number. *)
Lemma cell_movies_raise (st : state) (d : nat) (e : exn) :
  df st = Some d ->
  fst (cell_movies st) = Raise e ->
  e = ValueError /\
  exists r s, In r (main_frame st) /\ is_movie r = true /\ duration r = Some s /\
              endswith (str "min") (strip s) = true /\
              py_float (leading_token s) = Raise ValueError.
Proof.
  intros H Hr. destruct (cell_movies_kept st d H) as [_ Hres].
  rewrite Hres in Hr.
  destruct (apply parse_movie_duration _) as [col|e'] eqn:E; [discriminate|].
  injection Hr as ->. apply apply_raise in E. destruct E as (a & Hin & Ha).
  apply in_map_iff in Hin. destruct Hin as (r & <- & Hin).
  apply filter_In in Hin. destruct Hin as [Hin Hm].
  apply parse_movie_duration_raise_iff in Ha.
  destruct Ha as (s & Hs & He & Hf & ->). split; [reflexivity|].
  exists r, s. unfold main_frame, frame_of_var. rewrite H.
  repeat split; try assumption.
  destruct (duration r) as [s'|]; [|discriminate]. now injection Hs as ->.
Qed.

(** A value of [duration_int] that is kept comes from a string ending in
    "min" whose leading token [float] reads. *)
Lemma parse_movie_duration_kept (c : option pystr) (v : pyval) :
  parse_movie_duration (cell_value c) = Ok v -> isna v = false ->
  exists s f, c = Some s /\ v = VFloat f /\ f <> FNaN /\
              endswith (str "min") (strip s) = true /\
              py_float (leading_token s) = Ok f.
Proof.
  destruct c as [s|]; unfold cell_value.
  - rewrite parse_movie_duration_str.
    destruct (endswith (str "min") (strip s)) eqn:E.
    + destruct (py_float (leading_token s)) as [f|e] eqn:F; [|discriminate].
      intros Hv Hna. injection Hv as <-. exists s, f.
      repeat split; try assumption. intros ->. discriminate.
    + intros Hv Hna. injection Hv as <-. discriminate.
  - intros Hv Hna. injection Hv as <-. discriminate.
Qed.

(** The claim of C5 fails as worded: a Movie row with the duration "-5 min"
    is kept in the duration aggregation with the negative value -5, and a
    Movie row with the duration "9007199254740993 min" is kept with the
    value 9007199254740992, the nearest double, which is not the number
    that its leading token denotes. *)
Lemma negative_minutes_kept :
  (fst (cell_movies (loaded negative_minutes_table)) = Ok tt /\
   exists r, In r (movies_frame (snd (cell_movies (loaded negative_minutes_table)))) /\
             duration r = Some (str "-5 min") /\
             duration_int r = Some (VFloat (Finite true 5 0)) /\
             float_nonneg (Finite true 5 0) = false) /\
  (fst (cell_movies (loaded rounded_minutes_table)) = Ok tt /\
   exists r, In r (movies_frame (snd (cell_movies (loaded rounded_minutes_table)))) /\
             duration r = Some (str "9007199254740993 min") /\
             duration_int r = Some (VFloat (Finite false 9007199254740992 0)) /\
             digits_val (str "9007199254740993") <> 9007199254740992%N).
Proof.
  split.
  - split; [vm_compute; reflexivity|].
    eexists. split; [vm_compute; left; reflexivity|]. repeat split.
  - split; [vm_compute; reflexivity|].
    eexists. split; [vm_compute; left; reflexivity|]. repeat split.
    vm_compute. discriminate.
Qed.

(** C5, amended. Every Movie record kept in the duration aggregation has
    in [duration_int] the number that [float] reads from the leading token
    of its [duration] string, and that number is not NaN; it is
    non-negative when the token has no minus sign in front, and for a
    token of digits it is the double nearest to the number the digits
    denote, which is that number itself up to [2^53] ("90 min" yields
    90.0). *)
Theorem movie_duration_int_value (st : state) (d : nat) (r : row) :
  df st = Some d ->
  fst (cell_movies st) = Ok tt ->
  In r (movies_frame (snd (cell_movies st))) ->
  exists r0 s f,
    In r0 (main_frame st) /\ is_movie r0 = true /\
    r = set_duration_int (Some (VFloat f)) r0 /\
    duration r0 = Some s /\ endswith (str "min") (strip s) = true /\
    py_float (leading_token s) = Ok f /\ f <> FNaN /\
    (startswith (str "-") (leading_token s) = false -> float_nonneg f = true) /\
    (all_digits (leading_token s) = true ->
     f = to_double false (digits_val (leading_token s)) 0 /\
     ((digits_val (leading_token s) <= 2 ^ 53)%N ->
      f = Finite false (digits_val (leading_token s)) 0)).
Proof.
  intros H Hok Hin.
  destruct (cell_movies_kept st d H) as [Hfr Hres].
  rewrite Hfr in Hin. rewrite Hres in Hok.
  destruct (apply parse_movie_duration _) as [col|e] eqn:E; [|discriminate].
  apply (in_movies_kept _ col _ E) in Hin.
  destruct Hin as (r0 & v & Hin0 & Hm & Hv & Hna & ->).
  destruct (parse_movie_duration_kept _ _ Hv Hna) as (s & f & Hs & -> & Hf & He & Hp).
  exists r0, s, f. unfold main_frame, frame_of_var. rewrite H.
  do 7 (split; [assumption || reflexivity|]). split.
  - intros Hsign. rewrite <- strip_leading_token in Hsign.
    destruct (py_float_sign _ _ Hp Hsign) as [->|Hnn]; [congruence|assumption].
  - intros Hd. rewrite (py_float_digits _ Hd) in Hp. split; [congruence|].
    intros Hle. rewrite to_double_int in Hp by exact Hle. congruence.
Qed.

Lemma movie_duration_int_value_witness :
  exists r0 s f,
    In r0 (main_frame (loaded coproduction_table)) /\ is_movie r0 = true /\
    set_duration_int (Some (VFloat (Finite false 90 0)))
      (sample_row "Movie" "United States, India" "No Data" "90 min" "Dramas") =
    set_duration_int (Some (VFloat f)) r0 /\
    duration r0 = Some s /\ endswith (str "min") (strip s) = true /\
    py_float (leading_token s) = Ok f /\ f <> FNaN /\
    (startswith (str "-") (leading_token s) = false -> float_nonneg f = true) /\
    (all_digits (leading_token s) = true ->
     f = to_double false (digits_val (leading_token s)) 0 /\
     ((digits_val (leading_token s) <= 2 ^ 53)%N ->
      f = Finite false (digits_val (leading_token s)) 0)).
Proof.
  apply (movie_duration_int_value (loaded coproduction_table) 0).
  - reflexivity.
  - vm_compute. reflexivity.
  - vm_compute. left. reflexivity.
Defined.

(** ** Seasons *)



Lemma int_digits_all (ds : pystr) (acc : N) (n : nat) :
  Forall (fun c => isdigit c = true) ds -> (ds <> [] \/ n <> 0) ->
  int_digits acc n false ds =
  Some (fold_left (fun a c => (10 * a + digit_val c)%N) ds acc, n + length ds).
Proof.
  intros H. revert acc n. induction H as [|c r Hc _ IH]; intros acc n Hne; simpl.
  - destruct n; [destruct Hne; congruence|]. now rewrite Nat.add_0_r.
  - rewrite Hc, IH by (right; discriminate). simpl. do 2 f_equal. lia.
Qed.

(** [int] of a string of digits, within the digit limit, is the number the
    digits denote. *)
Lemma py_int_digits (ds : pystr) :
  all_digits ds = true -> length ds <= int_max_str_digits ->
  py_int ds = Ok (Z.of_N (digits_val ds)).
Proof.
  intros H Hlen. destruct (all_digits_Forall ds H) as [Hne Hd].
  unfold py_int.
  rewrite strip_id
    by (eapply List.Forall_impl; [|exact Hd]; intros c Hc; apply (digit_char_facts c Hc)).
  destruct ds as [|c r]; [congruence|].
  assert (Hc : isdigit c = true) by now inversion Hd.
  destruct (digit_char_facts c Hc) as (_ & _ & Hm & Hp & _).
  unfold take_sign. rewrite Hm, Hp.
  rewrite int_digits_all by (assumption || (left; discriminate)).
  replace (int_max_str_digits <? 0 + length (c :: r))%nat with false
    by (symmetry; apply Nat.ltb_ge; simpl in *; lia).
  reflexivity.
Qed.








(** ** The cleaning cell *)

(** The cleaning cell binds [df] to a new object holding the rows that have
    the three required fields; unless the table is empty, in which case the
    percentage of dropped rows divides by zero, it then fills the three
    optional columns. *)
Lemma cell_clean_run (st : state) (d : nat) :
  df st = Some d ->
  let f := frame_at (heap st) d in
  let kept := List.filter has_required f in
  let st' := snd (cell_clean st) in
  exists l1,
    heap st !! l1 = None /\ df st' = Some l1 /\
    fst (cell_clean st) =
      (if (length f =? 0)%nat then Raise ZeroDivisionError else Ok tt) /\
    main_frame st' =
      (if (length f =? 0)%nat then kept
       else map (fun r => set_director (fillna No_Data (director r)) r)
              (map (fun r => set_cast (fillna No_Data (cast r)) r)
                 (map (fun r => set_country (fillna No_Data (country r)) r) kept))).
Proof.
  intros H. cbv zeta. exists (fresh (dom (heap st))).
  split; [apply fresh_unbound|].
  unfold main_frame, frame_of_var, cell_clean. nb_run H.
  rewrite !frame_at_insert_eq.
  destruct (length (frame_at (heap st) d) =? 0)%nat; nb_step;
    rewrite ?frame_at_insert_eq; repeat split; reflexivity.
Qed.

(** C3. For every input table, every row that survives the cleaning cell
    has [rating], [duration] and [date_added] present and as they were,
    and has [country], [cast] and [director] present: the original value
    where there was one, the sentinel "No Data" where there was none.  The
    surviving rows are the input rows that had the three required fields,
    in their order. *)
Theorem cleaner_invariant (input : frame) :
  Forall2
    (fun r r' =>
       (rating r' = rating r /\ duration r' = duration r /\
        date_added r' = date_added r /\
        notna (rating r') = true /\ notna (duration r') = true /\
        date_notna (date_added r') = true) /\
       (country r' = Some (default No_Data (country r)) /\
        cast r' = Some (default No_Data (cast r)) /\
        director r' = Some (default No_Data (director r))) /\
       (title r' = title r /\ type_ r' = type_ r /\ listed_in r' = listed_in r))
    (List.filter has_required input)
    (main_frame (snd (cell_clean (loaded input)))).
Proof.
  destruct (cell_clean_run (loaded input) 0 eq_refl) as (l1 & _ & _ & _ & Hfr).
  rewrite Hfr. clear Hfr l1.
  replace (frame_at (heap (loaded input)) 0) with input by reflexivity.
  destruct input as [|r0 input0]; [constructor|].
  cbn [length Nat.eqb]. rewrite !map_map.
  set (input := r0 :: input0). clearbody input. clear r0 input0.
  induction input as [|r input IH]; simpl; [constructor|].
  destruct (has_required r) eqn:E; [|exact IH].
  simpl. constructor; [|exact IH].
  unfold has_required in E. apply andb_true_iff in E. destruct E as [E E3].
  apply andb_true_iff in E. destruct E as [E1 E2].
  repeat split; try assumption;
    (destruct (country r); reflexivity) || (destruct (cast r); reflexivity) ||
    (destruct (director r); reflexivity).
Qed.

(** ** The date cell *)

Lemma count_rows_map (p : row -> bool) (g : row -> row) (f : frame) :
  count_rows p (map g f) = count_rows (fun r => p (g r)) f.
Proof.
  unfold count_rows. induction f as [|r f IH]; simpl; [reflexivity|].
  destruct (p (g r)); simpl; now rewrite IH.
Qed.

Lemma count_rows_split (p : row -> bool) (f : frame) :
  count_rows p f + count_rows (fun r => negb (p r)) f = length f.
Proof.
  unfold count_rows. induction f as [|r f IH]; simpl; [reflexivity|].
  destruct (p r); simpl; lia.
Qed.

Lemma parsed_rows (parse : row -> datecell) (f : frame) :
  Forall2 (fun r r1 => date_added r1 = parse r /\ same_text_columns r r1)
          f (map (fun r => set_date_added (parse r) r) f).
Proof.
  induction f as [|r f IH]; simpl; constructor; [|exact IH].
  split; [reflexivity|]. now repeat split.
Qed.

Lemma dated_rows (parse : row -> datecell) (f : frame) :
  (forall r s, parse r <> DStr s) ->
  Forall2 (fun r r2 =>
             exists t, parse r = DStamp t /\ date_added r2 = DStamp t /\
                       added_year r2 = Some (year t) /\
                       added_month r2 = Some (month t) /\
                       added_day r2 = Some (day t) /\ same_text_columns r r2)
          (List.filter (fun r => date_notna (parse r)) f)
          (map (fun r => set_added_day (dt day (date_added r)) r)
             (map (fun r => set_added_month (dt month (date_added r)) r)
                (map (fun r => set_added_year (dt year (date_added r)) r)
                   (List.filter (fun r => date_notna (date_added r))
                                (map (fun r => set_date_added (parse r) r) f))))).
Proof.
  intros Hparse. induction f as [|r f IH]; simpl; [constructor|].
  destruct (parse r) as [|s|t] eqn:E; simpl; try exact IH.
  - now destruct (Hparse r s).
  - constructor; [|exact IH]. exists t. now repeat split.
Qed.

Section DateCell.

Variable strptime : pystr -> pystr -> option timestamp.
Variable sort_values : counter -> counter.
Variable generate : pystr -> result unit.

(** The first half of the date cell writes the parsed dates into the
    object bound to [df] and prints the number of failures; no row is
    removed and nothing raises. *)
Lemma cell_dates_parse_run (st : state) (d : nat) :
  df st = Some d ->
  let f := frame_at (heap st) d in
  let parsed :=
    map (fun r => set_date_added (to_datetime strptime date_format (date_added r)) r) f in
  let failed := count_rows (fun r => negb (date_notna (date_added r))) parsed in
  let st1 := snd (cell_dates_parse strptime st) in
  fst (cell_dates_parse strptime st) = Ok tt /\
  df st1 = Some d /\ heap st1 = <[d := parsed]> (heap st) /\
  stdout st1 =
    stdout st ++
    Print_failed_dates failed ::
    (if (0 <? failed)%nat then
       [Display_failed
          (head 5 (map (fun r => (title r, date_added r))
                       (List.filter (fun r => negb (date_notna (date_added r))) parsed)))]
     else []).
Proof.
  intros H. cbv zeta. unfold cell_dates_parse. nb_run H.
  rewrite !frame_at_insert_eq.
  destruct (0 <? _)%nat; nb_run H; rewrite ?frame_at_insert_eq;
    repeat split; try reflexivity; now rewrite <- app_assoc.
Qed.

(** The second half binds [df] to a new object with the rows whose date is
    there, and adds the three columns. *)
Lemma cell_dates_drop_run (st : state) (d : nat) :
  df st = Some d ->
  let st2 := snd (cell_dates_drop st) in
  exists l1,
    heap st !! l1 = None /\ df st2 = Some l1 /\ is_Some (heap st2 !! l1) /\
    fst (cell_dates_drop st) = Ok tt /\ stdout st2 = stdout st /\
    main_frame st2 =
      map (fun r => set_added_day (dt day (date_added r)) r)
        (map (fun r => set_added_month (dt month (date_added r)) r)
           (map (fun r => set_added_year (dt year (date_added r)) r)
              (List.filter (fun r => date_notna (date_added r)) (frame_at (heap st) d)))).
Proof.
  intros H. cbv zeta. exists (fresh (dom (heap st))).
  split; [apply fresh_unbound|].
  unfold main_frame, frame_of_var, cell_dates_drop. nb_run H.
  rewrite !frame_at_insert_eq, lookup_insert_eq. repeat split. now eexists.
Qed.

(** Every cell after the date cell leaves [df] bound to the same object
    with the same rows. *)
Lemma aggregation_cell_frame (c : NB unit) (st : state) (d : nat) :
  In c (aggregation_cells sort_values generate) ->
  df st = Some d -> is_Some (heap st !! d) ->
  df (snd (c st)) = Some d /\ heap (snd (c st)) !! d = heap st !! d.
Proof.
  intros Hc H Hd. simpl in Hc.
  destruct Hc as [<-|[<-|[<-|[<-|[<-|[<-|[<-|[]]]]]]]].
  - unfold cell_types. nb_run H. auto.
  - destruct (cell_country_genre_run sort_values st d H)
      as (_ & _ & _ & _ & Hh & Hdf & _).
    rewrite Hh, Hdf. auto.
  - destruct (cell_movies_frame st d H Hd) as (? & ? & _). auto.
  - destruct (cell_shows_frame st d H Hd) as (? & ? & _). auto.
  - unfold cell_trends. nb_run H. auto.
  - destruct (cell_actors_run st d H) as (_ & _ & Hh & Hdf & _).
    rewrite Hh, Hdf. auto.
  - unfold cell_wordcloud. nb_run H. auto.
Qed.

Lemma run_cells_frame (cells : list (NB unit)) (st : state) (d : nat) :
  (forall c, In c cells -> In c (aggregation_cells sort_values generate)) ->
  df st = Some d -> is_Some (heap st !! d) ->
  main_frame (snd (run_cells cells st)) = main_frame st.
Proof.
  revert st. induction cells as [|c cells IH]; intros st Hc H Hd; [reflexivity|].
  simpl. unfold nb_bind.
  destruct (aggregation_cell_frame c st d (Hc c (or_introl eq_refl)) H Hd) as [Hdf Hh].
  assert (Hmain : main_frame (snd (c st)) = main_frame st).
  { unfold main_frame, frame_of_var. rewrite Hdf, H. now apply frame_at_eq. }
  destruct (c st) as [[[]|e] st']; simpl in *; [|exact Hmain].
  rewrite <- Hmain. apply IH.
  - intros c' Hc'. apply Hc. now right.
  - exact Hdf.
  - now rewrite Hh.
Qed.

(** C4. The date cell parses [date_added] with the one format
    "%B %d, %Y"; a value that does not parse becomes the null marker and
    nothing raises.  The number of failures is printed while every row is
    still in the table; then the rows without a date are dropped, the rows
    that stay carry their parsed date and its year, month and day, and
    every later cell finds [df] as the date cell left it, so that a dropped
    row is in no later aggregation. *)
Theorem date_cell_drops_unparsed (st : state) (d : nat) :
  df st = Some d ->
  let f := frame_at (heap st) d in
  let parse := fun r => to_datetime strptime (str "%B %d, %Y") (date_added r) in
  let failed := count_rows (fun r => negb (date_notna (parse r))) f in
  let st1 := snd (cell_dates_parse strptime st) in
  let st2 := snd (cell_dates_drop st1) in
  cell_dates strptime st = (Ok tt, st2) /\
  (df st1 = Some d /\
   Forall2 (fun r r1 => date_added r1 = parse r /\ same_text_columns r r1)
           f (main_frame st1) /\
   exists shown, stdout st1 = stdout st ++ Print_failed_dates failed :: shown) /\
  (stdout st2 = stdout st1 /\
   Forall2 (fun r r2 =>
              exists t, parse r = DStamp t /\ date_added r2 = DStamp t /\
                        added_year r2 = Some (year t) /\
                        added_month r2 = Some (month t) /\
                        added_day r2 = Some (day t) /\ same_text_columns r r2)
           (List.filter (fun r => date_notna (parse r)) f) (main_frame st2) /\
   length (main_frame st2) + failed = length f) /\
  (forall cells,
     (forall c, In c cells -> In c (aggregation_cells sort_values generate)) ->
     main_frame (snd (run_cells cells st2)) = main_frame st2).
Proof.
  intros H. cbv zeta.
  destruct (cell_dates_parse_run st d H) as (R1 & D1 & H1 & O1).
  destruct (cell_dates_drop_run _ d D1) as (l1 & _ & D2 & B2 & R2 & O2 & F2).
  change (str "%B %d, %Y") with date_format.
  assert (Hparsed : frame_at (heap (snd (cell_dates_parse strptime st))) d =
                    map (fun r => set_date_added
                                    (to_datetime strptime date_format (date_added r)) r)
                        (frame_at (heap st) d)).
  { rewrite H1. apply frame_at_insert_eq. }
  split.
  { unfold cell_dates, nb_bind.
    destruct (cell_dates_parse strptime st) as [r1 st1]. simpl in *. subst r1.
    destruct (cell_dates_drop st1) as [r2 st2]. simpl in *. now subst r2. }
  split.
  { split; [exact D1|]. split.
    - unfold main_frame, frame_of_var. rewrite D1, Hparsed.
      apply (parsed_rows (fun r => to_datetime strptime date_format (date_added r))).
    - eexists. rewrite O1, count_rows_map. reflexivity. }
  split.
  { split; [exact O2|]. rewrite F2, Hparsed. split.
    - apply (dated_rows (fun r => to_datetime strptime date_format (date_added r))).
      intros r s. unfold to_datetime.
      destruct (date_added r) as [|s0|t0]; try discriminate.
      destruct (strptime date_format s0); discriminate.
    - rewrite !length_map.
      pose proof (count_rows_split (fun r => date_notna (date_added r))
                    (map (fun r => set_date_added
                                     (to_datetime strptime date_format (date_added r)) r)
                         (frame_at (heap st) d))) as Hs.
      rewrite (count_rows_map (fun r => negb (date_notna (date_added r)))), length_map
        in Hs.
      exact Hs. }
  intros cells Hc. now apply (run_cells_frame cells _ l1).
Qed.

End DateCell.

Lemma date_cell_drops_unparsed_witness :
  df (snd (cell_clean (loaded scenario_table))) = Some 1 /\
  cell_dates sample_strptime (snd (cell_clean (loaded scenario_table))) =
    (Ok tt, snd (cell_dates_drop
                   (snd (cell_dates_parse sample_strptime
                           (snd (cell_clean (loaded scenario_table))))))).
Proof.
  split; [vm_compute; reflexivity|].
  apply (date_cell_drops_unparsed sample_strptime sorted_desc sample_generate
           (snd (cell_clean (loaded scenario_table))) 1).
  vm_compute. reflexivity.
Defined.

(** ** Splitting and counting tokens *)

(** [s.split(sep)] has one piece more than [s.count(sep)]. *)
Lemma split_go_length (sep : pystr) (s cur : pystr) (skip : nat) :
  length (split_go sep cur skip s) = S (count_go sep skip s).
Proof.
  revert cur skip. induction s as [|c r IH]; intros cur skip; [reflexivity|].
  cbn [split_go count_go]. destruct skip as [|k]; [|apply IH].
  destruct (startswith sep (c :: r)); simpl; now rewrite IH.
Qed.

(** For the separator [","], [s.count(sep)] is the number of commas. *)
Lemma count_go_char (c : ascii) (s : pystr) :
  count_go [c] 0 s = length (List.filter (ascii_eqb c) s).
Proof.
  induction s as [|x r IH]; [reflexivity|].
  cbn [count_go startswith length Nat.sub List.filter].
  rewrite andb_true_r. destruct (ascii_eqb c x); cbn [length]; now rewrite IH.
Qed.

Lemma count_comma (s : pystr) : count (str ",") s = commas s.
Proof. apply count_go_char. Qed.

Lemma genre_loop_eq (cells acc : list pystr) :
  genre_loop cells acc =
  Ok (acc ++ flat_map (fun cell => map strip (split_go (str ",") [] 0 cell)) cells).
Proof.
  revert acc. induction cells as [|cell cells IH]; intros acc; simpl.
  - now rewrite app_nil_r.
  - rewrite IH. now rewrite <- app_assoc.
Qed.

Lemma all_genres_length (f : frame) :
  exists genres, all_genres_of f = Ok genres /\
                 length genres = sum_rows (fun r => commas_plus_one (listed_in r)) f.
Proof.
  unfold all_genres_of. rewrite genre_loop_eq. eexists. split; [reflexivity|].
  cbn [app]. induction f as [|r f IH]; [reflexivity|].
  cbn -[str split_go strip count_go]. destruct (listed_in r) as [s|];
    cbn -[str split_go strip count_go]; [|exact IH].
  rewrite length_app, length_map, split_go_length, IH.
  fold (count (str ",") s). rewrite count_comma. unfold sum_rows. lia.
Qed.

Lemma apply_str_split (sep : pystr) (col : list (option pystr)) :
  sep <> [] ->
  map_result (str_split sep) col = Ok (map (option_map (split_go sep [] 0)) col).
Proof.
  intros Hsep. induction col as [|c col IH]; [reflexivity|].
  cbn [map_result map]. rewrite IH.
  destruct c as [s|]; [|reflexivity].
  unfold str_split, split. destruct sep; [congruence|reflexivity].
Qed.

Lemma flat_cast_list_eq (sep : pystr) (col : list (option pystr)) :
  Forall (fun c => notna c = true) col ->
  flat_cast_list (map (option_map (split_go sep [] 0)) col) =
  Ok (flat_map (fun s => map strip (split_go sep [] 0 s)) (dropna_cells col)).
Proof.
  induction 1 as [|c col Hc _ IH]; [reflexivity|].
  destruct c as [s|]; [|discriminate].
  cbn [map option_map flat_cast_list dropna_cells flat_map]. now rewrite IH.
Qed.

Lemma flat_cast_length (f : frame) :
  (forall r, In r f -> notna (cast r) = true) ->
  exists series actors,
    cast_series f = Ok series /\ flat_cast_list series = Ok actors /\
    length actors =
      sum_rows (fun r => if cell_ne No_Data (cast r)
                         then separators_plus_one (cast r) else 0) f.
Proof.
  intros Hc. unfold cast_series.
  rewrite apply_str_split by discriminate.
  eexists _, _. split; [reflexivity|].
  rewrite flat_cast_list_eq.
  - split; [reflexivity|].
    induction f as [|r f IH]; [reflexivity|].
    cbn [List.filter sum_rows fold_right].
    specialize (IH (fun r' Hr' => Hc r' (or_intror Hr'))).
    destruct (cell_ne No_Data (cast r)); [|exact IH].
    pose proof (Hc r (or_introl eq_refl)) as Hn.
    cbn [map]. destruct (cast r) as [s|]; [|discriminate].
    cbn [dropna_cells flat_map separators_plus_one].
    rewrite length_app, length_map, split_go_length, IH.
    unfold count, sum_rows. lia.
  - apply List.Forall_forall. intros c Hin. apply in_map_iff in Hin.
    destruct Hin as (r & <- & Hr). apply filter_In in Hr. now apply Hc.
Qed.

(** ** Counters *)

Lemma counter_get_add (k x : pystr) (c : counter) :
  counter_get k (counter_add x c) =
  counter_get k c + (if pystr_eqb k x then 1 else 0).
Proof.
  induction c as [|[k' n] c IH]; simpl.
  - destruct (pystr_eqb k x); reflexivity.
  - destruct (pystr_eqb x k') eqn:Ex; simpl.
    + apply pystr_eqb_eq in Ex. subst k'.
      destruct (pystr_eqb k x); lia.
    + destruct (pystr_eqb k k') eqn:Ek.
      * apply pystr_eqb_eq in Ek. subst k'.
        rewrite pystr_eqb_sym, Ex. lia.
      * exact IH.
Qed.

Lemma counter_get_fold (k : pystr) (l : list pystr) (c : counter) :
  counter_get k (fold_left (fun c x => counter_add x c) l c) =
  counter_get k c + occurrences k l.
Proof.
  unfold occurrences. revert c. induction l as [|x l IH]; intros c; simpl.
  - lia.
  - rewrite IH, counter_get_add. destruct (pystr_eqb k x); simpl; lia.
Qed.

(** A [Counter] holds, for every token, the number of its occurrences:
    equal tokens are counted one by one. *)
Lemma counter_get_Counter (k : pystr) (l : list pystr) :
  counter_get k (Counter l) = occurrences k l.
Proof. unfold Counter. now rewrite counter_get_fold. Qed.

(** The claim of C7 fails as worded for the cast column: the cast "A,B"
    has one comma, and is one token, since the column is split at ", ". *)
Lemma tight_comma_is_one_token :
  exists series actors,
    cast_series tight_comma_table = Ok series /\
    flat_cast_list series = Ok actors /\
    length actors = 1 /\
    sum_rows (fun r => if cell_ne No_Data (cast r)
                       then commas_plus_one (cast r) else 0) tight_comma_table = 2.
Proof. eexists _, _. repeat split. Qed.

(** C7, amended. For every cleaned table, the genre tokens number the sum,
    over the rows that have a [listed_in], of its commas plus one; the
    cast tokens number the sum, over the rows whose [cast] is not the
    sentinel, of its occurrences of the separator ", " plus one; and the
    frequency of a token is the number of its occurrences, equal tokens of
    one row counted one by one. *)
Theorem exploded_token_totals (f : frame) :
  (forall r, In r f -> notna (cast r) = true) ->
  (exists genres,
     all_genres_of f = Ok genres /\
     length genres = sum_rows (fun r => commas_plus_one (listed_in r)) f /\
     forall k, counter_get k (Counter genres) = occurrences k genres) /\
  (exists series actors,
     cast_series f = Ok series /\ flat_cast_list series = Ok actors /\
     length actors =
       sum_rows (fun r => if cell_ne No_Data (cast r)
                          then separators_plus_one (cast r) else 0) f /\
     forall k, counter_get k (Counter actors) = occurrences k actors).
Proof.
  intros Hc. split.
  - destruct (all_genres_length f) as (genres & Hg & Hl).
    exists genres. repeat split; try assumption.
    intros k. apply counter_get_Counter.
  - destruct (flat_cast_length f Hc) as (series & actors & Hs & Ha & Hl).
    exists series, actors. repeat split; try assumption.
    intros k. apply counter_get_Counter.
Qed.

Lemma exploded_token_totals_witness :
  exists genres,
    all_genres_of tight_comma_table = Ok genres /\
    length genres =
      sum_rows (fun r => commas_plus_one (listed_in r)) tight_comma_table /\
    forall k, counter_get k (Counter genres) = occurrences k genres.
Proof.
  apply (exploded_token_totals tight_comma_table).
  intros r [<-|[]]. reflexivity.
Defined.

Lemma counter_add_keys (x : pystr) (c : counter) :
  (In x (keys c) /\ keys (counter_add x c) = keys c) \/
  (~ In x (keys c) /\ keys (counter_add x c) = keys c ++ [x]).
Proof.
  induction c as [|[k n] c IH]; simpl.
  - right. split; [tauto|reflexivity].
  - destruct (pystr_eqb x k) eqn:E; simpl.
    + apply pystr_eqb_eq in E. left. split; [now left|reflexivity].
    + apply pystr_eqb_neq in E.
      destruct IH as [[Hin IH]|[Hn IH]]; unfold keys in *; rewrite IH.
      * left. split; [now right|reflexivity].
      * right. split; [|reflexivity]. intros [Hk|Hin]; [congruence|tauto].
Qed.

Lemma NoDup_snoc (l : list pystr) (x : pystr) :
  List.NoDup l -> ~ In x l -> List.NoDup (l ++ [x]).
Proof.
  induction 1 as [|y l Hy Hl IH]; intros Hx; simpl.
  - constructor; [tauto|constructor].
  - constructor.
    + rewrite in_app_iff. simpl in *. intros [Hin|[->|[]]]; tauto.
    + apply IH. simpl in Hx. tauto.
Qed.

Lemma counter_add_NoDup (x : pystr) (c : counter) :
  List.NoDup (keys c) -> List.NoDup (keys (counter_add x c)).
Proof.
  intros H. destruct (counter_add_keys x c) as [[_ ->]|[Hn ->]]; [assumption|].
  now apply NoDup_snoc.
Qed.

(** The keys of a [Counter] are distinct. *)
Lemma Counter_NoDup (l : list pystr) : List.NoDup (keys (Counter l)).
Proof.
  unfold Counter.
  assert (H : forall c, List.NoDup (keys c) ->
                        List.NoDup (keys (fold_left (fun c k => counter_add k c) l c))).
  { induction l as [|x l IH]; intros c Hc; simpl; [assumption|].
    apply IH. now apply counter_add_NoDup. }
  apply H. constructor.
Qed.

Lemma counter_get_In (k : pystr) (n : nat) (c : counter) :
  List.NoDup (keys c) -> In (k, n) c -> counter_get k c = n.
Proof.
  induction c as [|[k' n'] c IH]; simpl; [tauto|].
  intros Hnd [Heq|Hin].
  - injection Heq as -> ->. now rewrite pystr_eqb_refl.
  - inversion Hnd as [|? ? Hk' Hnd']; subst.
    destruct (pystr_eqb k k') eqn:E.
    + apply pystr_eqb_eq in E. subst k'. exfalso. apply Hk'.
      unfold keys. apply in_map_iff. now exists (k, n).
    + now apply IH.
Qed.

Lemma counter_get_absent (k : pystr) (c : counter) :
  ~ In k (keys c) -> counter_get k c = 0.
Proof.
  induction c as [|[k' n'] c IH]; simpl; [reflexivity|].
  intros Hn. destruct (pystr_eqb k k') eqn:E.
  - apply pystr_eqb_eq in E. subst. tauto.
  - apply IH. tauto.
Qed.

Lemma counter_get_present (k : pystr) (c : counter) :
  In k (keys c) -> In (k, counter_get k c) c.
Proof.
  induction c as [|[k' n'] c IH]; simpl; [tauto|].
  intros [->|Hin].
  - rewrite pystr_eqb_refl. now left.
  - destruct (pystr_eqb k k') eqn:E.
    + apply pystr_eqb_eq in E. subst. now left.
    + right. now apply IH.
Qed.

(** Reordering a table with distinct keys does not change what it assigns
    to a key. *)
Lemma counter_get_Permutation (k : pystr) (c c' : counter) :
  List.NoDup (keys c) -> Permutation c c' -> counter_get k c' = counter_get k c.
Proof.
  intros Hnd Hp.
  assert (Hnd' : List.NoDup (keys c')).
  { eapply Permutation_NoDup; [|exact Hnd]. unfold keys. now apply Permutation_map. }
  destruct (in_dec (List.list_eq_dec ascii_dec) k (keys c)) as [Hin|Hn].
  - apply counter_get_In; [assumption|].
    eapply Permutation_in; [exact Hp|]. now apply counter_get_present.
  - rewrite (counter_get_absent k c Hn). apply counter_get_absent.
    intros Hin. apply Hn. unfold keys in *.
    eapply Permutation_in; [|exact Hin]. apply Permutation_map. now symmetry.
Qed.

(** [value_counts] assigns to a value the number of cells that hold it. *)
Lemma value_counts_get (sort_values : counter -> counter)
      (col : list (option pystr)) (k : pystr) :
  sorts_descending sort_values ->
  counter_get k (value_counts sort_values col) = occurrences k (dropna_cells col).
Proof.
  intros Hs. unfold value_counts.
  rewrite (counter_get_Permutation k (Counter (dropna_cells col))).
  - apply counter_get_Counter.
  - apply Counter_NoDup.
  - apply Hs.
Qed.

Lemma country_occurrences (f : frame) (k : pystr) :
  occurrences k (dropna_cells (country_series f)) =
  if pystr_eqb k No_Data then 0 else count_rows (fun r => cell_eq k (country r)) f.
Proof.
  unfold occurrences, country_series, count_rows, cell_ne, cell_eq.
  induction f as [|r f IH].
  - cbn -[No_Data pystr_eqb]. now destruct (pystr_eqb k No_Data).
  - cbn [List.filter]. destruct (country r) as [t|] eqn:Ec.
    + destruct (pystr_eqb t No_Data) eqn:Et; cbn [negb map dropna_cells List.filter].
      * apply pystr_eqb_eq in Et. subst t.
        destruct (pystr_eqb k No_Data) eqn:Ek; [exact IH|].
        rewrite pystr_eqb_sym, Ek. exact IH.
      * rewrite Ec. cbn [dropna_cells List.filter].
        rewrite (pystr_eqb_sym t k). destruct (pystr_eqb k t) eqn:Ekt; [|exact IH].
        apply pystr_eqb_eq in Ekt. subst t. rewrite Et in *.
        cbn [length]. now rewrite IH.
    + cbn [negb map dropna_cells List.filter]. rewrite Ec. exact IH.
Qed.

(** ** Sorting by count *)

Lemma insert_desc_perm (x : pystr * nat) (l : counter) :
  Permutation (x :: l) (insert_desc x l).
Proof.
  induction l as [|y l IH]; simpl; [reflexivity|].
  destruct (snd x <? snd y)%nat; [|reflexivity].
  rewrite perm_swap. now apply perm_skip.
Qed.

Lemma sorted_desc_perm (c : counter) : Permutation c (sorted_desc c).
Proof.
  induction c as [|x c IH]; simpl; [reflexivity|].
  rewrite <- insert_desc_perm. now apply perm_skip.
Qed.

Lemma insert_desc_sorted (x : pystr * nat) (l : counter) :
  StronglySorted count_ge l -> StronglySorted count_ge (insert_desc x l).
Proof.
  induction 1 as [|y l Hl IH Hy]; simpl.
  - constructor; constructor.
  - destruct (snd x <? snd y)%nat eqn:E.
    + apply Nat.ltb_lt in E. constructor; [exact IH|].
      apply List.Forall_forall. intros z Hz.
      apply (Permutation_in _ (Permutation_sym (insert_desc_perm x l))) in Hz.
      destruct Hz as [<-|Hz].
      * unfold count_ge. lia.
      * now apply (proj1 (List.Forall_forall _ _) Hy).
    + apply Nat.ltb_ge in E. constructor; [now constructor|].
      constructor; [exact E|].
      apply List.Forall_forall. intros z Hz.
      apply (proj1 (List.Forall_forall _ _) Hy) in Hz. unfold count_ge in *. lia.
Qed.

Lemma sorted_desc_sorted (c : counter) : StronglySorted count_ge (sorted_desc c).
Proof.
  induction c as [|x c IH]; simpl; [constructor|]. now apply insert_desc_sorted.
Qed.

(** Python's stable sort meets what is asked of [sort_values]. *)
Lemma sorted_desc_sorts_descending : sorts_descending sorted_desc.
Proof. intros c. split; [apply sorted_desc_perm|apply sorted_desc_sorted]. Qed.

Lemma In_firstn {A : Type} (n : nat) (l : list A) (x : A) :
  In x (firstn n l) -> In x l.
Proof.
  intros H. rewrite <- (firstn_skipn n l). apply in_or_app. now left.
Qed.

Lemma In_skipn {A : Type} (n : nat) (l : list A) (x : A) :
  In x (skipn n l) -> In x l.
Proof.
  intros H. rewrite <- (firstn_skipn n l). apply in_or_app. now right.
Qed.

Lemma StronglySorted_firstn (n : nat) (l : counter) :
  StronglySorted count_ge l -> StronglySorted count_ge (firstn n l).
Proof.
  intros H. revert n. induction H as [|x l Hl IH Hx]; intros [|n]; simpl;
    try constructor.
  - apply IH.
  - apply List.Forall_forall. intros z Hz. apply In_firstn in Hz.
    now apply (proj1 (List.Forall_forall _ _) Hx).
Qed.

(** In a descending table, no entry after the first [n] has a larger count
    than one of the first [n]. *)
Lemma firstn_dominates (n : nat) (l : counter) (a b : pystr * nat) :
  StronglySorted count_ge l ->
  In a (firstn n l) -> In b (skipn n l) -> snd b <= snd a.
Proof.
  intros H. revert n. induction H as [|x l Hl IH Hx]; intros n Ha Hb.
  - destruct n; simpl in Ha; tauto.
  - destruct n as [|n]; simpl in Ha, Hb; [tauto|].
    destruct Ha as [<-|Ha].
    + apply (proj1 (List.Forall_forall _ _) Hx). now apply (In_skipn n).
    + now apply (IH n).
Qed.

(** ** The country ranking *)

(** C1. The country ranking is not computed over country tokens: on a
    table whose one record has the country field "United States, India",
    the token "India" occurs once among the exploded tokens, but the
    frequency table that the country cell builds has no entry for it and
    counts the whole field as one country, whatever descending sort
    [value_counts] uses. *)
Lemma coproduction_counted_whole :
  occurrences (str "India") (exploded_countries coproduction_table) = 1 /\
  forall sort_values, sorts_descending sort_values ->
    counter_get (str "India")
                (value_counts sort_values (country_series coproduction_table)) = 0 /\
    counter_get (str "United States, India")
                (value_counts sort_values (country_series coproduction_table)) = 1.
Proof.
  split; [reflexivity|]. intros sv Hs.
  rewrite !(value_counts_get sv _ _ Hs). split; reflexivity.
Qed.

(** What the country cell computes in place of a ranking of countries:
    for every cleaned table, the frequency table assigns to each string
    the number of surviving records whose whole [country] field is that
    string, the sentinel "No Data" left out; the table is in descending
    order of count and the ranking is its first ten entries, none of the
    others having a larger count. *)
Theorem country_ranking_counts (sort_values : counter -> counter) (f : frame) :
  sorts_descending sort_values ->
  let table := value_counts sort_values (country_series f) in
  (forall s, counter_get s table =
             if pystr_eqb s No_Data then 0
             else count_rows (fun r => cell_eq s (country r)) f) /\
  top_countries_of sort_values f = firstn 10 table /\
  StronglySorted count_ge (top_countries_of sort_values f) /\
  (forall a b, In a (top_countries_of sort_values f) -> In b (skipn 10 table) ->
               snd b <= snd a).
Proof.
  intros Hs. cbv zeta. split; [|split; [reflexivity|split]].
  - intros s. rewrite (value_counts_get _ _ _ Hs). apply country_occurrences.
  - apply StronglySorted_firstn, Hs.
  - intros a b. apply firstn_dominates, Hs.
Qed.

Lemma country_ranking_counts_witness :
  sorts_descending sorted_desc /\
  top_countries_of sorted_desc coproduction_table =
    firstn 10 (value_counts sorted_desc (country_series coproduction_table)).
Proof.
  split; [exact sorted_desc_sorts_descending|].
  apply (country_ranking_counts sorted_desc coproduction_table).
  exact sorted_desc_sorts_descending.
Defined.

(** ** Ties *)

Lemma before_cons {A : Type} (a b y : A) (l : list A) :
  before a b (y :: l) <-> (a = y /\ In b l) \/ before a b l.
Proof.
  split.
  - intros (l1 & l2 & l3 & H). destruct l1 as [|z l1]; simpl in H.
    + injection H as -> ->. left. split; [reflexivity|].
      apply in_or_app. right. now left.
    + injection H as -> ->. right. now exists l1, l2, l3.
  - intros [[-> Hin]|(l1 & l2 & l3 & ->)].
    + apply in_split in Hin. destruct Hin as (l2 & l3 & ->).
      now exists [], l2, l3.
    + now exists (y :: l1), l2, l3.
Qed.

Lemma before_nth_error {A : Type} (l : list A) (i j : nat) (a b : A) :
  i < j -> nth_error l i = Some a -> nth_error l j = Some b -> before a b l.
Proof.
  revert i j. induction l as [|y l IH]; intros i j Hij Ha Hb.
  - destruct i; discriminate.
  - apply before_cons. destruct j as [|j]; [lia|]. simpl in Hb.
    destruct i as [|i]; simpl in Ha.
    + injection Ha as ->. left. split; [reflexivity|]. eapply nth_error_In. exact Hb.
    + right. apply (IH i j); [lia|assumption|assumption].
Qed.

Lemma before_app_l {A : Type} (a b : A) (l r : list A) :
  before a b l -> before a b (l ++ r).
Proof.
  intros (l1 & l2 & l3 & ->). exists l1, l2, (l3 ++ r).
  now rewrite <- !app_assoc, <- !app_comm_cons, <- app_assoc.
Qed.

Lemma before_map {A B : Type} (g : A -> B) (a b : A) (l : list A) :
  before a b l -> before (g a) (g b) (map g l).
Proof.
  intros (l1 & l2 & l3 & ->). exists (map g l1), (map g l2), (map g l3).
  now rewrite !map_app, !map_cons, map_app.
Qed.

Lemma before_snoc {A : Type} (a b x : A) (l : list A) :
  before a b (l ++ [x]) -> before a b l \/ (In a l /\ b = x).
Proof.
  induction l as [|y l IH]; simpl; intros H.
  - destruct H as (l1 & l2 & l3 & H).
    destruct l1 as [|? [|? ?]]; simpl in H; try discriminate.
    injection H as _ H. destruct l2; discriminate.
  - apply before_cons in H. destruct H as [[-> Hin]|H].
    + apply in_app_or in Hin. destruct Hin as [Hin|[<-|[]]].
      * left. apply before_cons. now left.
      * right. split; [now left|reflexivity].
    + destruct (IH H) as [Hb|[Hin ->]].
      * left. apply before_cons. now right.
      * right. split; [now right|reflexivity].
Qed.

(** The stable sort keeps entries of equal count in their order. *)
Lemma insert_desc_ties (x a b : pystr * nat) (l : counter) :
  before a b (insert_desc x l) -> snd a = snd b ->
  before a b l \/ (a = x /\ In b l).
Proof.
  induction l as [|y l IH]; simpl; intros H Hab.
  - destruct H as (l1 & l2 & l3 & H).
    destruct l1 as [|? [|? ?]]; simpl in H; try discriminate.
    injection H as _ H. destruct l2; discriminate.
  - destruct (snd x <? snd y)%nat eqn:E.
    + apply Nat.ltb_lt in E. apply before_cons in H. destruct H as [[-> Hin]|H].
      * apply (Permutation_in _ (Permutation_sym (insert_desc_perm x l))) in Hin.
        destruct Hin as [<-|Hin]; [lia|].
        left. apply before_cons. now left.
      * destruct (IH H Hab) as [Hb|[-> Hin]].
        -- left. apply before_cons. now right.
        -- right. split; [reflexivity|now right].
    + apply before_cons in H. destruct H as [[-> Hin]|H]; [now right|now left].
Qed.

Lemma sorted_desc_ties (a b : pystr * nat) (c : counter) :
  before a b (sorted_desc c) -> snd a = snd b -> before a b c.
Proof.
  induction c as [|x c IH]; simpl; intros H Hab.
  - destruct H as (l1 & l2 & l3 & H). destruct l1; discriminate.
  - apply before_cons. destruct (insert_desc_ties _ _ _ _ H Hab) as [Hb|[-> Hin]].
    + right. now apply IH.
    + left. split; [reflexivity|].
      now apply (Permutation_in _ (Permutation_sym (sorted_desc_perm c))).
Qed.

Lemma first_index_In (k : pystr) (l r : list pystr) :
  In k l -> first_index k (l ++ r) = first_index k l /\ first_index k l < length l.
Proof.
  induction l as [|x l IH]; simpl; [tauto|]. intros Hin.
  destruct (pystr_eqb k x) eqn:E; [split; [reflexivity|lia]|].
  apply pystr_eqb_neq in E. destruct Hin as [->|Hin]; [congruence|].
  destruct (IH Hin) as [-> Hlt]. split; [reflexivity|lia].
Qed.

Lemma first_index_new (k : pystr) (l : list pystr) :
  ~ In k l -> first_index k (l ++ [k]) = length l.
Proof.
  induction l as [|x l IH]; simpl; intros Hn.
  - now rewrite pystr_eqb_refl.
  - destruct (pystr_eqb k x) eqn:E.
    + apply pystr_eqb_eq in E. subst. tauto.
    + rewrite IH; tauto.
Qed.

Lemma Counter_snoc (l : list pystr) (x : pystr) :
  Counter (l ++ [x]) = counter_add x (Counter l).
Proof. unfold Counter. now rewrite fold_left_app. Qed.

(** The keys of [Counter(l)] are the tokens of [l]. *)
Lemma Counter_keys_In (l : list pystr) (k : pystr) :
  In k (keys (Counter l)) <-> In k l.
Proof.
  induction l as [|x l IH] using rev_ind; [reflexivity|].
  rewrite Counter_snoc, in_app_iff. simpl.
  destruct (counter_add_keys x (Counter l)) as [[Hin E]|[Hn E]]; rewrite E.
  - rewrite IH. split; [tauto|]. intros [H|[<-|[]]]; [assumption|]. now apply IH.
  - rewrite in_app_iff, IH. simpl. tauto.
Qed.

(** The keys of [Counter(l)] are in the order in which the tokens of [l]
    were first met. *)
Lemma Counter_keys_order (l : list pystr) (k1 k2 : pystr) :
  before k1 k2 (keys (Counter l)) -> first_index k1 l < first_index k2 l.
Proof.
  induction l as [|x l IH] using rev_ind.
  - intros (l1 & l2 & l3 & H). destruct l1; discriminate.
  - rewrite Counter_snoc.
    assert (Hold : before k1 k2 (keys (Counter l)) ->
                   first_index k1 (l ++ [x]) < first_index k2 (l ++ [x])).
    { intros Hb. specialize (IH Hb).
      assert (H1 : In k1 l).
      { apply Counter_keys_In. destruct Hb as (l1 & l2 & l3 & ->).
        apply in_or_app. right. now left. }
      assert (H2 : In k2 l).
      { apply Counter_keys_In. destruct Hb as (l1 & l2 & l3 & ->).
        apply in_or_app. right. right. apply in_or_app. right. now left. }
      destruct (first_index_In k1 l [x] H1) as [-> _].
      destruct (first_index_In k2 l [x] H2) as [-> _]. exact IH. }
    destruct (counter_add_keys x (Counter l)) as [[Hin E]|[Hn E]]; rewrite E.
    + exact Hold.
    + intros Hb. apply before_snoc in Hb. destruct Hb as [Hb|[Hin ->]].
      * now apply Hold.
      * apply (proj1 (Counter_keys_In l k1)) in Hin.
        destruct (first_index_In k1 l [x] Hin) as [-> Hlt].
        rewrite first_index_new; [exact Hlt|].
        intros Hx. apply Hn. now apply Counter_keys_In.
Qed.

Lemma before_firstn {A : Type} (n : nat) (a b : A) (l : list A) :
  before a b (firstn n l) -> before a b l.
Proof.
  intros H. rewrite <- (firstn_skipn n l). now apply before_app_l.
Qed.

(** [most_common] lists the entries in descending order of count, entries
    of equal count in the order in which their tokens were first met. *)
Lemma most_common_order (n : nat) (tokens : list pystr) :
  StronglySorted count_ge (most_common n (Counter tokens)) /\
  ties_by_first_encounter tokens (most_common n (Counter tokens)) /\
  length (most_common n (Counter tokens)) <= n.
Proof.
  unfold most_common. split; [|split].
  - apply StronglySorted_firstn, sorted_desc_sorted.
  - intros i j a b Hij Ha Hb Hab.
    apply Counter_keys_order. unfold keys. apply before_map.
    apply sorted_desc_ties; [|exact Hab].
    apply (before_firstn n). now apply (before_nth_error _ i j).
  - apply firstn_le_length.
Qed.

(** ** The three rankings *)

(** X19. Every top-10 ranking lists its entries in descending order of
    count and has at most ten of them.  In the genre and the actor
    ranking, which [Counter.most_common] builds, entries with equal counts
    stand in the order in which their tokens were first met in the input.
    The country ranking is built by [value_counts]; its order among equal
    counts is that of the library's sort, of which nothing is assumed
    here. *)
Theorem rankings_descending (sort_values : counter -> counter) (f : frame) :
  sorts_descending sort_values ->
  (StronglySorted count_ge (top_countries_of sort_values f) /\
   length (top_countries_of sort_values f) <= 10) /\
  (forall ranking, top10_genres_of f = Ok ranking ->
     exists genres,
       all_genres_of f = Ok genres /\
       StronglySorted count_ge ranking /\
       ties_by_first_encounter genres ranking /\ length ranking <= 10) /\
  (forall ranking, top_actors_of f = Ok ranking ->
     exists series actors,
       cast_series f = Ok series /\ flat_cast_list series = Ok actors /\
       StronglySorted count_ge ranking /\
       ties_by_first_encounter actors ranking /\ length ranking <= 10).
Proof.
  intros Hs. split; [|split].
  - split; [apply StronglySorted_firstn, Hs|apply firstn_le_length].
  - intros ranking. unfold top10_genres_of.
    destruct (all_genres_of f) as [genres|e] eqn:Eg; simpl; [|discriminate].
    intros H. injection H as <-. exists genres.
    split; [reflexivity|]. apply most_common_order.
  - intros ranking. unfold top_actors_of.
    destruct (cast_series f) as [series|e] eqn:Es; simpl; [|discriminate].
    destruct (flat_cast_list series) as [actors|e] eqn:Ea; simpl; [|discriminate].
    intros H. injection H as <-. exists series, actors.
    split; [reflexivity|]. split; [exact Ea|]. apply most_common_order.
Qed.

Lemma rankings_descending_witness :
  sorts_descending sorted_desc /\
  StronglySorted count_ge (top_countries_of sorted_desc two_countries_table).
Proof.
  split; [exact sorted_desc_sorts_descending|].
  apply (rankings_descending sorted_desc two_countries_table).
  exact sorted_desc_sorts_descending.
Defined.

(** ** The end-to-end scenarios of the specification *)

(** A Movie row with "90 min", the date "January 1, 2020" and no country or
    cast survives the cleaning with the sentinel in both, gets year 2020
    and month 1 and the duration 90.0, and is in neither the country nor
    the actor ranking; the row with "not a date" is counted as a failure
    and dropped; "Drama, Comedy, Drama" gives Drama twice and Comedy once.
    The run ends in the last cell: the one title left, "A", gives the word
    cloud no word. *)
Example scenario_run :
  let run := notebook sample_strptime sorted_desc sample_generate
                      (loaded scenario_table) in
  fst run = Raise ValueError /\
  map country (main_frame (snd run)) = [Some No_Data] /\
  map cast (main_frame (snd run)) = [Some No_Data] /\
  map added_year (main_frame (snd run)) = [Some 2020%Z] /\
  map added_month (main_frame (snd run)) = [Some 1%Z] /\
  map duration_int (movies_frame (snd run)) = [Some (VFloat (Finite false 90 0))] /\
  In (Print_failed_dates 1) (stdout (snd run)) /\
  top_countries (snd run) = [] /\
  top_actors (snd run) = [] /\
  top10_genres (snd run) = [(str "Drama", 2); (str "Comedy", 1)].
Proof.
  vm_compute. repeat split. tauto.
Qed.

(** On a table without rows the cleaning cell stops at the percentage of
    dropped rows, a division by the row count. *)
Example empty_table_stops_cleaning :
  fst (cell_clean (loaded [])) = Raise ZeroDivisionError.
Proof. reflexivity. Qed.

(* ===================================================================== *)
(** * Part III: further properties of the code                            *)
(* ===================================================================== *)

(** ** Trimming *)

Lemma lstrip_idem (s : pystr) : lstrip (lstrip s) = lstrip s.
Proof.
  destruct (lstrip_head s) as [E|(c & r & E & Hc)]; rewrite E; [reflexivity|].
  now apply lstrip_nonspace.
Qed.

Lemma rstrip_idem (s : pystr) : rstrip (rstrip s) = rstrip s.
Proof. unfold rstrip. now rewrite rev_involutive, lstrip_idem. Qed.

Lemma strip_trimmed (s : pystr) : trimmed (strip s).
Proof.
  split; [apply lstrip_strip|]. unfold strip. apply rstrip_idem.
Qed.

Lemma strip_idem (s : pystr) : strip (strip s) = strip s.
Proof.
  destruct (strip_trimmed s) as [Hl Hr]. unfold strip at 1. now rewrite Hl.
Qed.

Lemma lstrip_incl (s : pystr) (c : ascii) : In c (lstrip s) -> In c s.
Proof.
  induction s as [|x s IH]; simpl; [tauto|].
  destruct (isspace x); simpl; tauto.
Qed.

Lemma strip_incl (s : pystr) (c : ascii) : In c (strip s) -> In c s.
Proof.
  unfold strip, rstrip. intros H. apply in_rev, lstrip_incl, in_rev in H.
  now apply lstrip_incl.
Qed.

Lemma trimmed_ends (s : pystr) :
  trimmed s ->
  match s with [] => True | c :: _ => isspace c = false end /\
  match rev s with [] => True | c :: _ => isspace c = false end.
Proof.
  intros [Hl Hr]. split.
  - destruct (lstrip_head s) as [E|(c & r & E & Hc)]; rewrite Hl in E; now rewrite E.
  - unfold rstrip in Hr. apply (f_equal (@rev _)) in Hr. rewrite rev_involutive in Hr.
    destruct (lstrip_head (rev s)) as [E|(c & r & E & Hc)]; rewrite Hr in E; now rewrite E.
Qed.

(** ** Splitting and joining *)

Lemma split_go_skip (sep cur p s : pystr) :
  split_go sep cur (length p) (p ++ s) = split_go sep cur 0 s.
Proof. induction p as [|x p IH]; [reflexivity|exact IH]. Qed.

Lemma startswith_app (p s : pystr) :
  startswith p s = true -> exists r, s = p ++ r.
Proof.
  revert s. induction p as [|x p IH]; intros s H; [now exists s|].
  destruct s as [|y s]; [discriminate|]. simpl in H.
  apply andb_true_iff in H. destruct H as [Hx Hp].
  apply ascii_eqb_eq in Hx. subst y.
  destruct (IH s Hp) as [r ->]. now exists r.
Qed.

Lemma split_go_nonempty (sep cur s : pystr) (skip : nat) :
  split_go sep cur skip s <> [].
Proof.
  intros H. apply (f_equal (@length _)) in H.
  rewrite split_go_length in H. discriminate.
Qed.

Lemma join_cons (sep x : pystr) (l : list pystr) :
  l <> [] -> join sep (x :: l) = x ++ sep ++ join sep l.
Proof. destruct l; [congruence|reflexivity]. Qed.

Lemma join_split_go (sep : pystr) (n : nat) (s cur : pystr) :
  sep <> [] -> length s <= n ->
  join sep (split_go sep cur 0 s) = rev cur ++ s.
Proof.
  intros Hsep. revert s cur. induction n as [|n IH]; intros s cur Hn.
  - destruct s; [|simpl in Hn; lia]. simpl. now rewrite app_nil_r.
  - destruct s as [|x r]; [simpl; now rewrite app_nil_r|].
    cbn [split_go]. destruct (startswith sep (x :: r)) eqn:E.
    + apply startswith_app in E. destruct E as [s' E].
      destruct sep as [|y sep']; [congruence|].
      simpl in E. injection E as <- ->.
      match goal with
      | |- context [length ?l - 1] =>
          replace (length l - 1) with (length sep') by (simpl; lia)
      end.
      rewrite split_go_skip.
      rewrite join_cons by apply split_go_nonempty.
      rewrite IH; [reflexivity|].
      simpl in Hn. rewrite length_app in Hn. lia.
    + rewrite IH by (simpl in Hn; lia). simpl. now rewrite <- app_assoc.
Qed.

(** X1. Joining the pieces of [s.split(sep)] with [sep] gives [s] back: no
    character is lost or added by the split; there is always at least one
    piece, and only the empty separator is refused, with [ValueError]. *)
Theorem split_join_round_trip (sep s : pystr) :
  match split sep s with
  | Ok pieces => join sep pieces = s /\ pieces <> [] /\ sep <> []
  | Raise e => sep = [] /\ e = ValueError
  end.
Proof.
  unfold split. destruct sep as [|y sep']; [now split|].
  split; [|split; [apply split_go_nonempty|discriminate]].
  now apply (join_split_go (y :: sep') (length s) s []).
Qed.

Lemma split_go_no_char (c : ascii) (s cur : pystr) :
  ~ In c cur -> Forall (fun p => ~ In c p) (split_go [c] cur 0 s).
Proof.
  revert cur. induction s as [|x r IH]; intros cur Hcur.
  - constructor; [|constructor]. now rewrite <- in_rev.
  - cbn [split_go startswith length Nat.sub]. rewrite andb_true_r.
    destruct (ascii_eqb c x) eqn:E.
    + constructor; [now rewrite <- in_rev|]. apply IH. tauto.
    + apply IH. intros [->|Hin]; [|tauto].
      now rewrite ascii_eqb_refl in E.
Qed.

(** X2. Every genre token is trimmed and holds no comma, and every cast
    token of a cleaned table is trimmed: the explosion of [listed_in] and
    of [cast] leaves no white space around a token. *)
Theorem exploded_tokens_trimmed (f : frame) :
  (forall r, In r f -> notna (cast r) = true) ->
  (exists genres, all_genres_of f = Ok genres /\
                  Forall (fun t => trimmed t /\ ~ In ","%char t) genres) /\
  (exists series actors,
     cast_series f = Ok series /\ flat_cast_list series = Ok actors /\
     Forall trimmed actors).
Proof.
  intros Hc. split.
  - unfold all_genres_of. rewrite genre_loop_eq. eexists. split; [reflexivity|].
    cbn [app]. apply List.Forall_forall. intros t Ht.
    apply in_flat_map in Ht. destruct Ht as (cell & _ & Ht).
    apply in_map_iff in Ht. destruct Ht as (p & <- & Hp).
    split; [apply strip_trimmed|].
    intros Hin. apply strip_incl in Hin.
    pose proof (split_go_no_char ","%char cell [] (fun H => H)) as Hno.
    apply (proj1 (List.Forall_forall _ _) Hno p Hp). exact Hin.
  - unfold cast_series. rewrite apply_str_split by discriminate.
    eexists _, _. split; [reflexivity|]. rewrite flat_cast_list_eq.
    + split; [reflexivity|]. apply List.Forall_forall. intros t Ht.
      apply in_flat_map in Ht. destruct Ht as (cell & _ & Ht).
      apply in_map_iff in Ht. destruct Ht as (p & <- & Hp). apply strip_trimmed.
    + apply List.Forall_forall. intros c Hin. apply in_map_iff in Hin.
      destruct Hin as (r & <- & Hr). apply filter_In in Hr. now apply Hc.
Qed.

Lemma exploded_tokens_trimmed_witness :
  exists genres, all_genres_of tight_comma_table = Ok genres /\
                 Forall (fun t => trimmed t /\ ~ In ","%char t) genres.
Proof.
  apply (exploded_tokens_trimmed tight_comma_table).
  intros r [<-|[]]. reflexivity.
Defined.

(** ** The parsers and white space *)

Lemma contains_lstrip_eq (x : ascii) (p s : pystr) :
  isspace x = false -> contains (x :: p) (lstrip s) = contains (x :: p) s.
Proof.
  intros Hx. induction s as [|c s IH]; [reflexivity|].
  cbn [lstrip]. destruct (isspace c) eqn:Ec; [|reflexivity].
  rewrite IH. cbn [contains startswith].
  destruct (ascii_eqb x c) eqn:E; [|reflexivity].
  apply ascii_eqb_eq in E. congruence.
Qed.

Lemma startswith_snoc_space (sub t : pystr) (c : ascii) :
  Forall (fun x => isspace x = false) sub -> isspace c = true ->
  startswith sub (t ++ [c]) = startswith sub t.
Proof.
  intros Hsub Hc. revert t. induction Hsub as [|x p Hx _ IH]; intros t; [reflexivity|].
  destruct t as [|y t]; cbn [app startswith].
  - destruct (ascii_eqb x c) eqn:E; [|reflexivity].
    apply ascii_eqb_eq in E. congruence.
  - now rewrite IH.
Qed.

Lemma contains_snoc_space (x : ascii) (p t : pystr) (c : ascii) :
  Forall (fun x => isspace x = false) (x :: p) -> isspace c = true ->
  contains (x :: p) (t ++ [c]) = contains (x :: p) t.
Proof.
  intros Hsub Hc. induction t as [|y t IH].
  - pose proof (startswith_snoc_space (x :: p) [] c Hsub Hc) as E.
    cbn [app] in E. cbn [app contains]. rewrite E. reflexivity.
  - change ((y :: t) ++ [c]) with (y :: (t ++ [c])). cbn [contains].
    rewrite IH.
    change (y :: (t ++ [c])) with ((y :: t) ++ [c]).
    now rewrite (startswith_snoc_space (x :: p) (y :: t) c Hsub Hc).
Qed.

Lemma contains_rstrip_eq (x : ascii) (p s : pystr) :
  Forall (fun x => isspace x = false) (x :: p) ->
  contains (x :: p) (rstrip s) = contains (x :: p) s.
Proof.
  intros Hsub. induction s as [|c a IH] using rev_ind; [reflexivity|].
  rewrite rstrip_snoc. destruct (isspace c) eqn:Ec; [|reflexivity].
  now rewrite IH, contains_snoc_space.
Qed.

Lemma contains_strip_eq (x : ascii) (p s : pystr) :
  Forall (fun x => isspace x = false) (x :: p) ->
  contains (x :: p) (strip s) = contains (x :: p) s.
Proof.
  intros Hsub. unfold strip. rewrite contains_rstrip_eq by assumption.
  apply contains_lstrip_eq. now inversion Hsub.
Qed.

(** X3. White space around a duration changes nothing: both parsers give
    on [x.strip()] what they give on [x], a value or an exception. *)
Theorem parsers_ignore_outer_space (s : pystr) :
  parse_movie_duration (VStr (strip s)) = parse_movie_duration (VStr s) /\
  parse_seasons (VStr (strip s)) = parse_seasons (VStr s).
Proof.
  split.
  - now rewrite !parse_movie_duration_str, strip_idem, leading_token_strip.
  - rewrite !parse_seasons_str, leading_token_strip.
    rewrite (contains_strip_eq "S"%char (str "eason")); [reflexivity|].
    repeat constructor.
Qed.

(** ** Durations of the documented form *)

Lemma token_prefix_digits (ds rest : pystr) :
  Forall (fun c => isdigit c = true) ds ->
  token_prefix (ds ++ " "%char :: rest) = ds.
Proof.
  induction 1 as [|c r Hc _ IH]; [reflexivity|].
  cbn [app token_prefix]. destruct (digit_char_facts c Hc) as (-> & _). now rewrite IH.
Qed.

Lemma leading_token_digits (ds rest : pystr) :
  all_digits ds = true -> leading_token (ds ++ " "%char :: rest) = ds.
Proof.
  intros H. destruct (all_digits_Forall ds H) as [Hne Hd].
  unfold leading_token. destruct ds as [|c r]; [congruence|].
  assert (Hc : isdigit c = true) by now inversion Hd.
  destruct (digit_char_facts c Hc) as (Hs & _).
  change ((c :: r) ++ " "%char :: rest) with (c :: (r ++ " "%char :: rest)).
  rewrite lstrip_nonspace by assumption.
  now apply (token_prefix_digits (c :: r)).
Qed.

Lemma strip_digits_word (ds word : pystr) (last : ascii) :
  all_digits ds = true -> isspace last = false ->
  strip (ds ++ word ++ [last]) = ds ++ word ++ [last].
Proof.
  intros H Hl. destruct (all_digits_Forall ds H) as [Hne Hd].
  destruct ds as [|c r]; [congruence|].
  assert (Hc : isdigit c = true) by now inversion Hd.
  destruct (digit_char_facts c Hc) as (Hs & _).
  unfold strip.
  change ((c :: r) ++ word ++ [last]) with (c :: (r ++ word ++ [last])).
  rewrite lstrip_nonspace by assumption.
  change (c :: (r ++ word ++ [last])) with ((c :: r) ++ word ++ [last]).
  rewrite app_assoc, rstrip_snoc, Hl. reflexivity.
Qed.

Lemma contains_digits (x : ascii) (p ds rest : pystr) :
  isdigit x = false -> Forall (fun c => isdigit c = true) ds ->
  contains (x :: p) (ds ++ rest) = contains (x :: p) rest.
Proof.
  intros Hx. induction 1 as [|c r Hc _ IH]; [reflexivity|].
  cbn [app contains startswith]. rewrite IH.
  destruct (ascii_eqb x c) eqn:E; [|reflexivity].
  apply ascii_eqb_eq in E. congruence.
Qed.

Lemma endswith_app (p s t : pystr) :
  length p <= length t -> endswith p (s ++ t) = endswith p t.
Proof.
  unfold endswith. rewrite rev_app_distr.
  rewrite <- (length_rev p), <- (length_rev t).
  generalize (rev p) (rev t) (rev s). clear. intros p. 
  induction p as [|x p IH]; intros t s Hlen; [reflexivity|].
  destruct t as [|y t]; [simpl in Hlen; lia|].
  cbn [app startswith]. rewrite IH by (simpl in Hlen; lia). reflexivity.
Qed.

(** X4. On durations of the documented form the two parsers are right and
    do not overlap: for a number [N] written in digits, "N min" gives the
    double nearest to N, which is N itself up to [2^53], and no season
    count; "N Season" and "N Seasons" give N seasons (up to the digit
    limit of [int]) and no minutes. *)
Theorem documented_durations (ds : pystr) :
  all_digits ds = true -> length ds <= int_max_str_digits ->
  parse_movie_duration (VStr (ds ++ str " min")) =
    Ok (VFloat (to_double false (digits_val ds) 0)) /\
  ((digits_val ds <= 2 ^ 53)%N ->
   parse_movie_duration (VStr (ds ++ str " min")) =
     Ok (VFloat (Finite false (digits_val ds) 0))) /\
  parse_seasons (VStr (ds ++ str " min")) = Ok nan /\
  parse_seasons (VStr (ds ++ str " Season")) = Ok (VInt (Z.of_N (digits_val ds))) /\
  parse_seasons (VStr (ds ++ str " Seasons")) = Ok (VInt (Z.of_N (digits_val ds))) /\
  parse_movie_duration (VStr (ds ++ str " Season")) = Ok nan /\
  parse_movie_duration (VStr (ds ++ str " Seasons")) = Ok nan.
Proof.
  intros H Hlen. destruct (all_digits_Forall ds H) as [Hne Hd].
  rewrite !parse_movie_duration_str, !parse_seasons_str.
  assert (S1 : strip (ds ++ str " min") = ds ++ str " min")
    by exact (strip_digits_word ds (str " mi") "n"%char H eq_refl).
  assert (S2 : strip (ds ++ str " Season") = ds ++ str " Season")
    by exact (strip_digits_word ds (str " Seaso") "n"%char H eq_refl).
  assert (S3 : strip (ds ++ str " Seasons") = ds ++ str " Seasons")
    by exact (strip_digits_word ds (str " Season") "s"%char H eq_refl).
  rewrite S1, S2, S3.
  rewrite !endswith_app by (simpl; lia).
  rewrite !(contains_digits "S"%char (str "eason")) by (reflexivity || assumption).
  change (str " min") with (" "%char :: str "min").
  change (str " Season") with (" "%char :: str "Season").
  change (str " Seasons") with (" "%char :: str "Seasons").
  rewrite !leading_token_digits by assumption.
  rewrite (py_float_digits ds H), (py_int_digits ds H Hlen).
  split; [reflexivity|]. split; [|repeat split].
  intros Hle. now rewrite to_double_int.
Qed.

Lemma documented_durations_witness :
  parse_movie_duration (VStr (str "90" ++ str " min")) =
    Ok (VFloat (Finite false (digits_val (str "90")) 0)).
Proof.
  apply (documented_durations (str "90")).
  - reflexivity.
  - unfold int_max_str_digits. simpl. lia.
  - vm_compute. discriminate.
Defined.

(** ** Frequency tables *)

Lemma total_counter_add (x : pystr) (c : counter) :
  total (counter_add x c) = S (total c).
Proof.
  induction c as [|[k n] c IH]; [reflexivity|].
  cbn [counter_add]. destruct (pystr_eqb x k); cbn [total fold_right snd] in *.
  - lia.
  - fold (total (counter_add x c)). fold (total c). lia.
Qed.

Lemma total_Counter (l : list pystr) : total (Counter l) = length l.
Proof.
  induction l as [|x l IH] using rev_ind; [reflexivity|].
  rewrite Counter_snoc, total_counter_add, IH, length_app. simpl. lia.
Qed.

Lemma total_Permutation (c c' : counter) : Permutation c c' -> total c = total c'.
Proof.
  induction 1; cbn [total fold_right] in *; try lia.
  fold (total l) in *. fold (total l') in *. lia.
Qed.

Lemma total_firstn (n : nat) (c : counter) : total (firstn n c) <= total c.
Proof.
  revert n. induction c as [|e c IH]; intros [|n]; cbn [firstn total fold_right];
    try lia.
  fold (total (firstn n c)). fold (total c). specialize (IH n). lia.
Qed.

Lemma occurrences_app (k : pystr) (l l' : list pystr) :
  occurrences k (l ++ l') = occurrences k l + occurrences k l'.
Proof. unfold occurrences. now rewrite List.filter_app, length_app. Qed.

Lemma occurrences_Permutation (k : pystr) (l l' : list pystr) :
  Permutation l l' -> occurrences k l = occurrences k l'.
Proof.
  unfold occurrences. induction 1 as [|x l l' _ IH|x y l|l l' l'' _ IH1 _ IH2];
    cbn [List.filter]; try reflexivity.
  - destruct (pystr_eqb k x); cbn [length]; now rewrite IH.
  - destruct (pystr_eqb k x), (pystr_eqb k y); reflexivity.
  - now rewrite IH1.
Qed.

Lemma occurrences_pos (k : pystr) (l : list pystr) :
  In k l <-> 1 <= occurrences k l.
Proof.
  unfold occurrences. induction l as [|x l IH]; cbn [List.filter length In].
  - split; [tauto|lia].
  - destruct (pystr_eqb k x) eqn:E; cbn [length].
    + apply pystr_eqb_eq in E. split; [lia|now left].
    + apply pystr_eqb_neq in E. rewrite <- IH. split; [|tauto].
      intros [->|H]; [congruence|exact H].
Qed.

Lemma country_tokens_eq (f : frame) :
  dropna_cells (country_series f) = flat_map country_value f.
Proof.
  unfold country_series, country_value, cell_ne, cell_eq.
  induction f as [|r f IH]; [reflexivity|].
  cbn [List.filter flat_map]. destruct (country r) as [s|] eqn:E.
  - destruct (pystr_eqb s No_Data); cbn [negb map dropna_cells app].
    + exact IH.
    + rewrite E. cbn [dropna_cells]. now rewrite IH.
  - cbn [negb map dropna_cells app]. rewrite E. exact IH.
Qed.

Lemma genre_tokens_eq (f : frame) : all_genres_of f = Ok (flat_map genre_tokens f).
Proof.
  unfold all_genres_of. rewrite genre_loop_eq. f_equal. cbn [app].
  unfold genre_tokens. induction f as [|r f IH]; [reflexivity|].
  cbn [map dropna_cells flat_map]. destruct (listed_in r) as [s|].
  - cbn [dropna_cells flat_map]. now rewrite IH.
  - exact IH.
Qed.

Lemma cast_tokens_eq (f : frame) :
  (forall r, In r f -> notna (cast r) = true) ->
  (let* series := cast_series f in flat_cast_list series) =
  Ok (flat_map cast_tokens f).
Proof.
  intros Hc. unfold cast_series. rewrite apply_str_split by discriminate.
  cbn [bind]. rewrite flat_cast_list_eq.
  - f_equal. unfold cast_tokens, cell_ne, cell_eq.
    induction f as [|r f IH]; [reflexivity|].
    specialize (IH (fun r' Hr' => Hc r' (or_intror Hr'))).
    pose proof (Hc r (or_introl eq_refl)) as Hn.
    cbn [List.filter flat_map]. destruct (cast r) as [s|] eqn:E; [|discriminate].
    destruct (pystr_eqb s No_Data); cbn [negb map dropna_cells flat_map].
    + exact IH.
    + rewrite E. cbn [dropna_cells flat_map]. now rewrite IH.
  - apply List.Forall_forall. intros c Hin. apply in_map_iff in Hin.
    destruct Hin as (r & <- & Hr). apply filter_In in Hr. now apply Hc.
Qed.

(** X5. The frequencies do not depend on the order of the rows: for two
    cleaned tables with the same rows in another order, every country
    value, every genre and every actor has the same count. *)
Theorem frequencies_ignore_row_order
    (sort_values : counter -> counter) (f f' : frame) :
  sorts_descending sort_values ->
  Permutation f f' ->
  (forall r, In r f -> notna (cast r) = true) ->
  (forall s, counter_get s (value_counts sort_values (country_series f)) =
             counter_get s (value_counts sort_values (country_series f'))) /\
  (exists genres genres',
     all_genres_of f = Ok genres /\ all_genres_of f' = Ok genres' /\
     forall k, counter_get k (Counter genres) = counter_get k (Counter genres')) /\
  (exists actors actors',
     (let* series := cast_series f in flat_cast_list series) = Ok actors /\
     (let* series := cast_series f' in flat_cast_list series) = Ok actors' /\
     forall k, counter_get k (Counter actors) = counter_get k (Counter actors')).
Proof.
  intros Hs Hp Hc.
  assert (Hc' : forall r, In r f' -> notna (cast r) = true).
  { intros r Hr. apply Hc. eapply Permutation_in; [symmetry; exact Hp|exact Hr]. }
  split; [|split].
  - intros s. rewrite !(value_counts_get _ _ _ Hs), !country_tokens_eq.
    apply occurrences_Permutation. now apply Permutation_flat_map.
  - exists (flat_map genre_tokens f), (flat_map genre_tokens f').
    split; [apply genre_tokens_eq|]. split; [apply genre_tokens_eq|].
    intros k. rewrite !counter_get_Counter.
    apply occurrences_Permutation. now apply Permutation_flat_map.
  - exists (flat_map cast_tokens f), (flat_map cast_tokens f').
    split; [now apply cast_tokens_eq|]. split; [now apply cast_tokens_eq|].
    intros k. rewrite !counter_get_Counter.
    apply occurrences_Permutation. now apply Permutation_flat_map.
Qed.

Lemma frequencies_ignore_row_order_witness :
  counter_get (str "India")
              (value_counts sorted_desc (country_series two_countries_table)) =
  counter_get (str "India")
              (value_counts sorted_desc (country_series (rev two_countries_table))).
Proof.
  apply (frequencies_ignore_row_order sorted_desc two_countries_table
           (rev two_countries_table)).
  - exact sorted_desc_sorts_descending.
  - apply Permutation_rev.
  - intros r [<-|[<-|[]]]; reflexivity.
Defined.

Lemma keys_firstn (n : nat) (c : counter) : keys (firstn n c) = firstn n (keys c).
Proof. unfold keys. symmetry. apply firstn_map. Qed.

Lemma NoDup_firstn {A : Type} (n : nat) (l : list A) :
  List.NoDup l -> List.NoDup (firstn n l).
Proof.
  intros H. rewrite <- (firstn_skipn n l) in H.
  now apply List.NoDup_app_remove_r in H.
Qed.

Lemma sorted_desc_keys_NoDup (l : list pystr) :
  List.NoDup (keys (sorted_desc (Counter l))).
Proof.
  eapply Permutation_NoDup; [|apply (Counter_NoDup l)].
  unfold keys. apply Permutation_map, sorted_desc_perm.
Qed.

Lemma In_keys (k : pystr) (n : nat) (c : counter) : In (k, n) c -> In k (keys c).
Proof. intros H. unfold keys. apply in_map_iff. now exists (k, n). Qed.

(** X6. The entries of a ranking built by [Counter(tokens).most_common(n)]
    are genuine: no token is listed twice, every listed count is the number
    of occurrences of its token (at least one), there are [n] entries or
    as many as there are distinct tokens, and no token left out occurs
    more often than a listed one. *)
Theorem most_common_entries (n : nat) (tokens : list pystr) :
  let ranking := most_common n (Counter tokens) in
  List.NoDup (keys ranking) /\
  (forall k c, In (k, c) ranking ->
               c = occurrences k tokens /\ 1 <= c /\ In k tokens) /\
  length ranking = Nat.min n (length (Counter tokens)) /\
  (forall k e, In k tokens -> ~ In k (keys ranking) -> In e ranking ->
               occurrences k tokens <= snd e).
Proof.
  cbv zeta. unfold most_common.
  assert (Hin : forall k c, In (k, c) (sorted_desc (Counter tokens)) ->
                            c = occurrences k tokens /\ In k tokens).
  { intros k c H.
    apply (Permutation_in _ (Permutation_sym (sorted_desc_perm _))) in H.
    split.
    - rewrite <- counter_get_Counter. symmetry.
      apply counter_get_In; [apply Counter_NoDup|exact H].
    - apply Counter_keys_In. now apply (In_keys k c). }
  split; [|split; [|split]].
  - rewrite keys_firstn. apply NoDup_firstn, sorted_desc_keys_NoDup.
  - intros k c H. apply In_firstn in H. destruct (Hin k c H) as [-> Hk].
    split; [reflexivity|]. split; [now apply occurrences_pos|exact Hk].
  - rewrite List.length_firstn. f_equal.
    symmetry. apply Permutation_length, sorted_desc_perm.
  - intros k e Hk Hnot He.
    assert (Hkc : In (k, occurrences k tokens) (sorted_desc (Counter tokens))).
    { apply (Permutation_in _ (sorted_desc_perm _)).
      rewrite <- counter_get_Counter. apply counter_get_present.
      now apply Counter_keys_In. }
    rewrite <- (firstn_skipn n (sorted_desc (Counter tokens))) in Hkc.
    apply in_app_or in Hkc. destruct Hkc as [Hkc|Hkc].
    + exfalso. apply Hnot. now apply (In_keys k (occurrences k tokens)).
    + apply (firstn_dominates n (sorted_desc (Counter tokens)) e
               (k, occurrences k tokens) (sorted_desc_sorted _) He Hkc).
Qed.

Lemma column_occurrences (col : row -> option pystr) (f : frame) (k : pystr) :
  occurrences k (dropna_cells (map col f)) = count_rows (fun r => cell_eq k (col r)) f.
Proof.
  unfold occurrences, count_rows, cell_eq.
  induction f as [|r f IH]; [reflexivity|].
  cbn [map dropna_cells List.filter]. destruct (col r) as [t|]; [|exact IH].
  cbn [List.filter]. rewrite (pystr_eqb_sym t k).
  destruct (pystr_eqb k t); cbn [length]; now rewrite IH.
Qed.

Lemma column_length (col : row -> option pystr) (f : frame) :
  length (dropna_cells (map col f)) = count_rows (fun r => notna (col r)) f.
Proof.
  unfold count_rows. induction f as [|r f IH]; [reflexivity|].
  cbn [map dropna_cells List.filter]. destruct (col r); cbn [notna length]; now rewrite IH.
Qed.

(** X7. The type cell plots, for every value of [type], the number of rows
    of [df] that hold it, in descending order and each value once; the
    counts add up to the number of rows that have a type, so that the
    shares add up to one. *)
Theorem type_distribution (sort_values : counter -> counter) (st : state) (d : nat) :
  sorts_descending sort_values ->
  df st = Some d ->
  exists counts,
    stdout (snd (cell_types sort_values st)) = stdout st ++ [Plot_types counts] /\
    (forall k, counter_get k counts =
               count_rows (fun r => cell_eq k (type_ r)) (main_frame st)) /\
    total counts = count_rows (fun r => notna (type_ r)) (main_frame st) /\
    StronglySorted count_ge counts /\ List.NoDup (keys counts).
Proof.
  intros Hs H.
  exists (value_counts sort_values (map type_ (main_frame st))).
  unfold main_frame, frame_of_var. rewrite H.
  split; [|split; [|split; [|split]]].
  - unfold cell_types. nb_run H. reflexivity.
  - intros k. rewrite (value_counts_get _ _ _ Hs). apply column_occurrences.
  - unfold value_counts.
    rewrite <- (total_Permutation _ _ (proj1 (Hs _))), total_Counter.
    apply column_length.
  - apply Hs.
  - eapply Permutation_NoDup; [|apply Counter_NoDup].
    unfold keys, value_counts. apply Permutation_map, Hs.
Qed.

Lemma type_distribution_witness :
  exists counts,
    stdout (snd (cell_types sorted_desc (loaded two_countries_table))) =
      stdout (loaded two_countries_table) ++ [Plot_types counts] /\
    (forall k, counter_get k counts =
               count_rows (fun r => cell_eq k (type_ r))
                          (main_frame (loaded two_countries_table))) /\
    total counts = count_rows (fun r => notna (type_ r))
                              (main_frame (loaded two_countries_table)) /\
    StronglySorted count_ge counts /\ List.NoDup (keys counts).
Proof.
  apply (type_distribution sorted_desc (loaded two_countries_table) 0).
  - exact sorted_desc_sorts_descending.
  - reflexivity.
Defined.

Lemma In_country_value (s : pystr) (f : frame) :
  In s (flat_map country_value f) <->
  s <> No_Data /\ exists r, In r f /\ country r = Some s.
Proof.
  rewrite in_flat_map. unfold country_value. split.
  - intros (r & Hr & Hs). destruct (country r) as [t|] eqn:E; [|destruct Hs].
    destruct (pystr_eqb t No_Data) eqn:Et; [destruct Hs|].
    destruct Hs as [<-|[]]. apply pystr_eqb_neq in Et. split; [exact Et|].
    now exists r.
  - intros (Hne & r & Hr & E). exists r. split; [exact Hr|]. rewrite E.
    apply pystr_eqb_neq in Hne. rewrite Hne. now left.
Qed.

(** X8. The number that the country cell prints as "unique countries" is
    the number of distinct values of the [country] column other than the
    sentinel, whole fields and not single countries; it is the length of
    the frequency table, of which [top_countries] holds the first ten or
    all. *)
Theorem unique_countries_count
    (sort_values : counter -> counter) (st : state) (d : nat) :
  sorts_descending sort_values ->
  df st = Some d ->
  let f := main_frame st in
  let table := value_counts sort_values (country_series f) in
  let st' := snd (cell_country_genre sort_values st) in
  stdout st' = stdout st ++ [Print_unique_countries (length table)] /\
  List.NoDup (keys table) /\
  (forall s, In s (keys table) <->
             s <> No_Data /\ exists r, In r f /\ country r = Some s) /\
  length (top_countries st') = Nat.min 10 (length table).
Proof.
  intros Hs H. cbv zeta.
  destruct (cell_country_genre_run sort_values st d H) as (_ & Htc & _ & Hout & _).
  unfold main_frame, frame_of_var. rewrite H.
  assert (Hperm : Permutation (Counter (dropna_cells (country_series (frame_at (heap st) d))))
                              (value_counts sort_values
                                 (country_series (frame_at (heap st) d))))
    by apply Hs.
  split; [|split; [|split]].
  - rewrite Hout. unfold nunique. do 3 f_equal. now apply Permutation_length.
  - apply (Permutation_NoDup (l := keys (Counter (dropna_cells
                                 (country_series (frame_at (heap st) d)))))).
    + unfold keys. apply Permutation_map. exact Hperm.
    + apply Counter_NoDup.
  - intros s. rewrite <- In_country_value, <- country_tokens_eq.
    rewrite <- (Counter_keys_In (dropna_cells (country_series (frame_at (heap st) d))) s).
    unfold keys. split; apply Permutation_in; apply Permutation_map;
      [symmetry|]; exact Hperm.
  - rewrite Htc. unfold top_countries_of, head. apply List.length_firstn.
Qed.

Lemma unique_countries_count_witness :
  stdout (snd (cell_country_genre sorted_desc (loaded coproduction_table))) =
  stdout (loaded coproduction_table) ++
  [Print_unique_countries
     (length (value_counts sorted_desc
                (country_series (main_frame (loaded coproduction_table)))))].
Proof.
  apply (unique_countries_count sorted_desc (loaded coproduction_table) 0).
  - exact sorted_desc_sorts_descending.
  - reflexivity.
Defined.

(** ** The report of the cleaning cell *)

Lemma cell_clean_stdout (st : state) (d : nat) :
  df st = Some d ->
  let f := frame_at (heap st) d in
  stdout (snd (cell_clean st)) =
    stdout st ++
    Print_missing (count_rows (fun r => negb (notna (rating r))) f)
                  (count_rows (fun r => negb (notna (duration r))) f)
                  (count_rows (fun r => negb (date_notna (date_added r))) f) ::
    (if (length f =? 0)%nat then []
     else [Print_dropped (Z.of_nat (length f) -
                          Z.of_nat (length (List.filter has_required f)))
                         (length f)]).
Proof.
  intros H. cbv zeta. unfold cell_clean. nb_run H.
  rewrite !frame_at_insert_eq.
  destruct (length (frame_at (heap st) d) =? 0)%nat; nb_run H; [reflexivity|].
  now rewrite <- app_assoc.
Qed.

Lemma missing_bounds (f : frame) :
  count_rows (fun r => negb (notna (rating r))) f <= count_rows lacks_required f /\
  count_rows (fun r => negb (notna (duration r))) f <= count_rows lacks_required f /\
  count_rows (fun r => negb (date_notna (date_added r))) f <= count_rows lacks_required f /\
  count_rows lacks_required f <=
    count_rows (fun r => negb (notna (rating r))) f +
    count_rows (fun r => negb (notna (duration r))) f +
    count_rows (fun r => negb (date_notna (date_added r))) f.
Proof.
  unfold count_rows, lacks_required, has_required.
  induction f as [|r f IH]; cbn [List.filter length]; [lia|].
  destruct (notna (rating r)), (notna (duration r)), (date_notna (date_added r));
    cbn [negb andb length]; lia.
Qed.

(** X9. The cleaning cell reports what it does: the three printed counts
    are the rows without rating, duration and date, the printed number of
    dropped rows is the number of rows lacking one of the three, which is
    the difference of the row counts before and after, at least each of the
    three counts and at most their sum.  On a table without rows the cell
    stops with [ZeroDivisionError] after the first report, before anything
    else is printed. *)
Theorem cleaning_report (input : frame) :
  let st' := snd (cell_clean (loaded input)) in
  let dropped := count_rows lacks_required input in
  let missing_rating := count_rows (fun r => negb (notna (rating r))) input in
  let missing_duration := count_rows (fun r => negb (notna (duration r))) input in
  let missing_date := count_rows (fun r => negb (date_notna (date_added r))) input in
  match input with
  | [] =>
      fst (cell_clean (loaded input)) = Raise ZeroDivisionError /\
      stdout st' = [Print_missing 0 0 0]
  | _ :: _ =>
      fst (cell_clean (loaded input)) = Ok tt /\
      exists rest,
        stdout st' = Print_missing missing_rating missing_duration missing_date ::
                     Print_dropped (Z.of_nat dropped) (length input) :: rest
  end /\
  length (main_frame st') + dropped = length input /\
  missing_rating <= dropped /\ missing_duration <= dropped /\
  missing_date <= dropped /\
  dropped <= missing_rating + missing_duration + missing_date.
Proof.
  cbv zeta.
  destruct (cell_clean_run (loaded input) 0 eq_refl) as (l1 & _ & _ & Hres & Hfr).
  pose proof (cell_clean_stdout (loaded input) 0 eq_refl) as Hout.
  cbv zeta in Hout.
  replace (frame_at (heap (loaded input)) 0) with input in * by reflexivity.
  pose proof (count_rows_split has_required input) as Hsplit.
  fold lacks_required in Hsplit. unfold count_rows at 1 in Hsplit.
  split; [|split; [|apply missing_bounds]].
  - destruct input as [|r0 input0].
    + split; [exact Hres|exact Hout].
    + split; [exact Hres|]. exists []. rewrite Hout.
      cbn [length Nat.eqb stdout loaded app].
      do 3 f_equal. cbn [length] in Hsplit. lia.
  - rewrite Hfr. destruct (length input =? 0)%nat; rewrite ?length_map; exact Hsplit.
Qed.

(** ** Cleaning and dating together *)

Lemma to_datetime_not_str (strptime : pystr -> pystr -> option timestamp)
      (fmt : pystr) (c : datecell) (s : pystr) :
  to_datetime strptime fmt c <> DStr s.
Proof.
  unfold to_datetime. destruct c as [|s0|t0]; try discriminate.
  destruct (strptime fmt s0); discriminate.
Qed.

Lemma prepared_rows (strptime : pystr -> pystr -> option timestamp) (input : frame) :
  Forall2 (prepared_from strptime)
    (List.filter (reaches_aggregation strptime) input)
    (map (fun r => set_added_day (dt day (date_added r)) r)
       (map (fun r => set_added_month (dt month (date_added r)) r)
          (map (fun r => set_added_year (dt year (date_added r)) r)
             (List.filter (fun r => date_notna (date_added r))
                (map (fun r => set_date_added
                                 (to_datetime strptime date_format (date_added r)) r)
                   (map (fun r => set_director (fillna No_Data (director r)) r)
                      (map (fun r => set_cast (fillna No_Data (cast r)) r)
                         (map (fun r => set_country (fillna No_Data (country r)) r)
                            (List.filter has_required input))))))))).
Proof.
  induction input as [|r input IH]; [constructor|].
  cbn [List.filter]. unfold reaches_aggregation at 1, date_fails.
  destruct (has_required r); cbn [andb]; [|exact IH].
  cbn [map List.filter set_country set_cast set_director set_date_added date_added].
  destruct (to_datetime strptime date_format (date_added r)) as [|s|t] eqn:E;
    cbn [date_notna negb map]; [exact IH| |].
  - now destruct (to_datetime_not_str strptime date_format (date_added r) s).
  - constructor; [|exact IH]. split; [|split].
    + exists t. repeat split; assumption || reflexivity.
    + repeat split.
    + cbn. destruct (country r), (cast r), (director r); repeat split.
Qed.

Lemma cell_dates_run (strptime : pystr -> pystr -> option timestamp)
      (st : state) (d : nat) :
  df st = Some d ->
  let parsed :=
    map (fun r => set_date_added (to_datetime strptime date_format (date_added r)) r)
        (frame_at (heap st) d) in
  let st2 := snd (cell_dates strptime st) in
  fst (cell_dates strptime st) = Ok tt /\
  (exists l2, df st2 = Some l2 /\ is_Some (heap st2 !! l2)) /\
  main_frame st2 =
    map (fun r => set_added_day (dt day (date_added r)) r)
      (map (fun r => set_added_month (dt month (date_added r)) r)
         (map (fun r => set_added_year (dt year (date_added r)) r)
            (List.filter (fun r => date_notna (date_added r)) parsed))) /\
  exists shown,
    stdout st2 =
      stdout st ++
      Print_failed_dates (count_rows (date_fails strptime) (frame_at (heap st) d)) ::
      shown.
Proof.
  intros H. cbv zeta.
  destruct (cell_dates_parse_run strptime st d H) as (R1 & D1 & H1 & O1).
  destruct (cell_dates_drop_run _ d D1) as (l1 & _ & D2 & B2 & R2 & O2 & F2).
  assert (Hsnd : cell_dates strptime st =
                 (Ok tt, snd (cell_dates_drop (snd (cell_dates_parse strptime st))))).
  { unfold cell_dates, nb_bind.
    destruct (cell_dates_parse strptime st) as [r1 st1]. simpl in *. subst r1.
    destruct (cell_dates_drop st1) as [r2 st2]. simpl in *. now subst r2. }
  rewrite Hsnd. cbn [fst snd]. split; [reflexivity|].
  split; [now exists l1|]. split.
  - rewrite F2, H1, frame_at_insert_eq. reflexivity.
  - eexists. rewrite O2, O1, count_rows_map. reflexivity.
Qed.

Lemma count_rows_filter (p q : row -> bool) (f : frame) :
  count_rows p (List.filter q f) = count_rows (fun r => q r && p r) f.
Proof.
  unfold count_rows. induction f as [|r f IH]; [reflexivity|].
  cbn [List.filter]. destruct (q r); cbn [andb List.filter]; [|exact IH].
  destruct (p r); cbn [length]; now rewrite IH.
Qed.

Lemma three_way_split (strptime : pystr -> pystr -> option timestamp) (f : frame) :
  length (List.filter (reaches_aggregation strptime) f) +
  count_rows (fun r => has_required r && date_fails strptime r) f +
  count_rows lacks_required f = length f.
Proof.
  unfold count_rows, reaches_aggregation, lacks_required.
  induction f as [|r f IH]; [reflexivity|].
  cbn [List.filter]. destruct (has_required r), (date_fails strptime r);
    cbn [andb negb length]; lia.
Qed.

Lemma main_frame_at (st : state) (d : nat) :
  df st = Some d -> main_frame st = frame_at (heap st) d.
Proof. intros H. unfold main_frame, frame_of_var. now rewrite H. Qed.

(** X10. The cleaning cell and the date cell together: of a table with at
    least one row, [df] holds afterwards one row for every row of the file
    that has the three required fields and a date that parses, in the
    order of the file, with the sentinel filled in and year, month and day
    set; the two printed numbers, rows dropped for a missing field and
    dates that failed, and the rows left add up to the rows of the file. *)
Theorem prepared_table (strptime : pystr -> pystr -> option timestamp) (input : frame) :
  input <> [] ->
  let st1 := snd (cell_clean (loaded input)) in
  let st2 := snd (cell_dates strptime st1) in
  let dropped := count_rows lacks_required input in
  let failed := count_rows (fun r => has_required r && date_fails strptime r) input in
  fst (cell_clean (loaded input)) = Ok tt /\
  fst (cell_dates strptime st1) = Ok tt /\
  Forall2 (prepared_from strptime)
          (List.filter (reaches_aggregation strptime) input) (main_frame st2) /\
  (exists a b c between shown,
     stdout st2 = Print_missing a b c ::
                  Print_dropped (Z.of_nat dropped) (length input) ::
                  between ++ Print_failed_dates failed :: shown) /\
  length (main_frame st2) + failed + dropped = length input.
Proof.
  intros Hne. cbv zeta.
  destruct (cell_clean_run (loaded input) 0 eq_refl) as (l1 & _ & D1 & Hres & Hfr).
  pose proof (cell_clean_stdout (loaded input) 0 eq_refl) as Hout.
  cbv zeta in Hout.
  replace (frame_at (heap (loaded input)) 0) with input in * by reflexivity.
  assert (Hlen : (length input =? 0)%nat = false).
  { destruct input; [congruence|reflexivity]. }
  rewrite Hlen in Hres, Hfr, Hout.
  rewrite (main_frame_at _ l1 D1) in Hfr.
  destruct (cell_dates_run strptime _ l1 D1) as (R2 & _ & F2 & shown & O2).
  cbv zeta in F2. rewrite Hfr in F2, O2.
  pose proof (count_rows_split has_required input) as Hsplit.
  fold lacks_required in Hsplit. unfold count_rows at 1 in Hsplit.
  assert (HF : Forall2 (prepared_from strptime)
                 (List.filter (reaches_aggregation strptime) input)
                 (main_frame (snd (cell_dates strptime (snd (cell_clean (loaded input))))))).
  { rewrite F2. apply prepared_rows. }
  split; [exact Hres|]. split; [exact R2|]. split; [exact HF|]. split.
  - eexists _, _, _, [], shown. rewrite O2, Hout. cbn [stdout loaded app].
    rewrite !count_rows_map, count_rows_filter.
    do 2 f_equal. f_equal. lia.
  - apply Forall2_length in HF. rewrite <- HF. apply three_way_split.
Qed.

Lemma prepared_table_witness :
  scenario_table <> [] /\
  length (main_frame (snd (cell_dates sample_strptime
                             (snd (cell_clean (loaded scenario_table)))))) +
  count_rows (fun r => has_required r && date_fails sample_strptime r) scenario_table +
  count_rows lacks_required scenario_table = length scenario_table.
Proof.
  split; [discriminate|].
  apply (prepared_table sample_strptime scenario_table). discriminate.
Defined.

(** ** The whole notebook *)

Lemma movies_result (f : frame) :
  (let* _ := apply parse_movie_duration
               (map (fun r => cell_value (duration r)) (List.filter is_movie f)) in
   Ok tt) =
  if existsb (fun r => is_movie r && movie_duration_raises r) f
  then Raise ValueError else Ok tt.
Proof.
  rewrite apply_outcome.
  induction f as [|r f IH]; [reflexivity|].
  cbn [List.filter existsb]. destruct (is_movie r); cbn [andb orb]; [|exact IH].
  cbn [map map_result]. unfold movie_duration_raises.
  destruct (parse_movie_duration (cell_value (duration r))) as [v|e] eqn:E.
  - cbn [orb]. unfold bind at 1 2.
    destruct (map_result parse_movie_duration _) as [col|e]; exact IH.
  - apply parse_movie_duration_raise_iff in E. destruct E as (s & _ & _ & _ & ->).
    reflexivity.
Qed.









(** ** The reports of the duration cells *)

Lemma set_column_rows {A B C : Type} (f : A -> result B) (g : row -> A) (h : B -> C)
      (set : C -> row -> row) (rows : frame) (vals : list B) :
  map_result f (map g rows) = Ok vals ->
  Forall2 (fun r r' => exists v, f (g r) = Ok v /\ r' = set (h v) r)
          rows (set_column set (map h vals) rows).
Proof.
  revert vals. induction rows as [|r rows IH]; intros vals H; cbn [map map_result] in H.
  - injection H as <-. constructor.
  - destruct (f (g r)) as [v|e] eqn:E; [|discriminate]. cbn [bind] in H.
    destruct (map_result f (map g rows)) as [vals'|e]; [|discriminate].
    cbn [bind] in H. injection H as <-.
    unfold set_column. cbn [combine map fst snd]. constructor.
    + now exists v.
    + exact (IH vals' eq_refl).
Qed.

Lemma movie_column_rows (rows : frame) (col : list pyval) :
  apply parse_movie_duration (map (fun r => cell_value (duration r)) rows) = Ok col ->
  Forall2 (fun r r' => exists v, parse_movie_duration (cell_value (duration r)) = Ok v /\
                                 r' = set_duration_int (Some v) r)
          rows (set_column (fun v => set_duration_int (Some v)) col rows).
Proof.
  rewrite apply_movies. intros H. rewrite <- (map_id col).
  exact (set_column_rows parse_movie_duration (fun r => cell_value (duration r))
           (fun v => v) (fun v => set_duration_int (Some v)) rows col H).
Qed.


Lemma count_rows_Forall2 (R : row -> row -> Prop) (p q : row -> bool) (l l' : frame) :
  (forall a b, R a b -> q b = p a) -> Forall2 R l l' -> count_rows q l' = count_rows p l.
Proof.
  intros HR HF. unfold count_rows.
  induction HF as [|a b l l' Hab _ IH]; [reflexivity|].
  cbn [List.filter]. rewrite (HR a b Hab). destruct (p a); cbn [length]; now rewrite IH.
Qed.

(** X12. The report of the movie cell.  When [float] refuses the duration
    of a Movie row, the cell stops with [ValueError] before it prints
    anything, and [df_movies] is left holding every Movie row, without the
    new column.  Otherwise the printed number of bad durations is the
    number of Movie rows whose duration parses to NaN, these rows and the
    rows kept in [df_movies] add up to the Movie rows of [df], and the
    histogram is drawn from the values of the kept rows, none of which is
    NaN. *)
Theorem movie_cell_report (st : state) (d : nat) :
  df st = Some d ->
  let f := frame_at (heap st) d in
  let st' := snd (cell_movies st) in
  let bad := count_rows (fun r => is_movie r && movie_duration_isna r) f in
  if existsb (fun r => is_movie r && movie_duration_raises r) f then
    fst (cell_movies st) = Raise ValueError /\ stdout st' = stdout st /\
    movies_frame st' = List.filter is_movie f
  else
    fst (cell_movies st) = Ok tt /\
    stdout st' = stdout st ++ [Print_bad_durations bad;
                               Plot_durations (map duration_int (movies_frame st'))] /\
    length (movies_frame st') + bad = count_rows is_movie f /\
    Forall (fun r => col_isna (duration_int r) = false) (movies_frame st').
Proof.
  intros H. cbv zeta.
  destruct (cell_movies_run st d H)
    as (l1 & l2 & l3 & h1 & h2 & _ & -> & _ & -> & Hcase & _).
  cbv zeta in Hcase.
  pose proof (movies_result (frame_at (heap st) d)) as Hm.
  pose proof (movie_column_rows (List.filter is_movie (frame_at (heap st) d))) as Hrows.
  destruct (apply parse_movie_duration _) as [col|e]; cbn [bind] in Hm.
  - destruct (existsb _ _); [discriminate|].
    destruct Hcase as (Hr & _ & Hh & Hdm & Hout).
    specialize (Hrows col eq_refl).
    set (fm := set_column (fun v => set_duration_int (Some v)) col
                 (List.filter is_movie (frame_at (heap st) d))) in *.
    assert (Hkept : movies_frame (snd (cell_movies st)) =
                    List.filter (fun r => negb (col_isna (duration_int r))) fm).
    { unfold movies_frame, frame_of_var. now rewrite Hdm, Hh, frame_at_insert_eq. }
    assert (Hagree : forall a b : row,
               (exists v, parse_movie_duration (cell_value (duration a)) = Ok v /\
                          b = set_duration_int (Some v) a) ->
               col_isna (duration_int b) = movie_duration_isna a).
    { intros a b (v & Hv & ->). unfold movie_duration_isna. now rewrite Hv. }
    assert (Hbad : count_rows (fun r => col_isna (duration_int r)) fm =
                   count_rows (fun r => is_movie r && movie_duration_isna r)
                              (frame_at (heap st) d)).
    { rewrite <- count_rows_filter.
      exact (count_rows_Forall2 _ _ _ _ _ Hagree Hrows). }
    rewrite Hkept, Hout, Hbad. split; [exact Hr|]. split; [reflexivity|]. split.
    + rewrite <- Hbad.
      pose proof (count_rows_split (fun r => col_isna (duration_int r)) fm) as Hs.
      apply Forall2_length in Hrows. unfold count_rows in *. lia.
    + apply List.Forall_forall. intros r Hin. apply filter_In in Hin.
      now apply negb_true_iff.
  - destruct (existsb _ _); [|discriminate]. injection Hm as ->.
    destruct Hcase as (Hr & Hh & Hdm & Hout).
    split; [exact Hr|]. split; [exact Hout|].
    unfold movies_frame, frame_of_var. now rewrite Hdm, Hh, frame_at_insert_eq.
Qed.

Lemma movie_cell_report_witness :
  df (loaded negative_minutes_table) = Some 0 /\
  let f := frame_at (heap (loaded negative_minutes_table)) 0 in
  let st' := snd (cell_movies (loaded negative_minutes_table)) in
  let bad := count_rows (fun r => is_movie r && movie_duration_isna r) f in
  if existsb (fun r => is_movie r && movie_duration_raises r) f then
    fst (cell_movies (loaded negative_minutes_table)) = Raise ValueError /\
    stdout st' = stdout (loaded negative_minutes_table) /\
    movies_frame st' = List.filter is_movie f
  else
    fst (cell_movies (loaded negative_minutes_table)) = Ok tt /\
    stdout st' = stdout (loaded negative_minutes_table) ++
                 [Print_bad_durations bad;
                  Plot_durations (map duration_int (movies_frame st'))] /\
    length (movies_frame st') + bad = count_rows is_movie f /\
    Forall (fun r => col_isna (duration_int r) = false) (movies_frame st').
Proof.
  split; [reflexivity|].
  exact (movie_cell_report (loaded negative_minutes_table) 0 eq_refl).
Defined.



(** ** The display of the dates that failed *)

Lemma cell_dates_stdout (strptime : pystr -> pystr -> option timestamp)
      (st : state) (d : nat) :
  df st = Some d ->
  let parsed :=
    map (fun r => set_date_added (to_datetime strptime date_format (date_added r)) r)
        (frame_at (heap st) d) in
  let failed := count_rows (fun r => negb (date_notna (date_added r))) parsed in
  stdout (snd (cell_dates strptime st)) =
    stdout st ++
    Print_failed_dates failed ::
    (if (0 <? failed)%nat then
       [Display_failed
          (head 5 (map (fun r => (title r, date_added r))
                       (List.filter (fun r => negb (date_notna (date_added r))) parsed)))]
     else []).
Proof.
  intros H. cbv zeta.
  destruct (cell_dates_parse_run strptime st d H) as (R1 & D1 & _ & O1).
  destruct (cell_dates_drop_run _ d D1) as (l1 & _ & _ & _ & _ & O2 & _).
  unfold cell_dates, nb_bind.
  destruct (cell_dates_parse strptime st) as [r1 st1]. cbn [fst snd] in *. subst r1.
  now rewrite O2, O1.
Qed.

Lemma failed_rows_shown (parse : row -> datecell) (f : frame) :
  map (fun r => (title r, date_added r))
      (List.filter (fun r => negb (date_notna (date_added r)))
                   (map (fun r => set_date_added (parse r) r) f)) =
  map (fun r => (title r, DNa)) (List.filter (fun r => negb (date_notna (parse r))) f).
Proof.
  induction f as [|r f IH]; [reflexivity|].
  cbn [map List.filter set_date_added date_added].
  destruct (parse r) as [|s|t] eqn:E; cbn [date_notna negb map]; try exact IH.
  cbn [title set_date_added date_added]. now rewrite IH.
Qed.

(** X14. What the date cell prints: the number of rows whose date does not
    parse and, only if there is such a row, a display of the first five of
    them in the order of the table.  The display gives their titles; as
    the parsed column has replaced the text of the file, the date shown for
    each of them is the null marker, not the text that failed. *)
Theorem failed_dates_display (strptime : pystr -> pystr -> option timestamp)
        (st : state) (d : nat) :
  df st = Some d ->
  let failing := List.filter (date_fails strptime) (frame_at (heap st) d) in
  stdout (snd (cell_dates strptime st)) =
    stdout st ++
    Print_failed_dates (length failing) ::
    match failing with
    | [] => []
    | _ :: _ => [Display_failed (map (fun r => (title r, DNa)) (firstn 5 failing))]
    end.
Proof.
  intros H. cbv zeta. rewrite (cell_dates_stdout strptime st d H).
  rewrite (failed_rows_shown (fun r => to_datetime strptime date_format (date_added r))).
  rewrite count_rows_map. cbn [set_date_added date_added].
  unfold count_rows, head, date_fails. rewrite firstn_map.
  now destruct (List.filter _ _).
Qed.

Lemma failed_dates_display_witness :
  df (snd (cell_clean (loaded scenario_table))) = Some 1 /\
  stdout (snd (cell_dates sample_strptime (snd (cell_clean (loaded scenario_table))))) =
    stdout (snd (cell_clean (loaded scenario_table))) ++
    [Print_failed_dates 1; Display_failed [(Some (str "B"), DNa)]].
Proof.
  split; [vm_compute; reflexivity|].
  rewrite (failed_dates_display sample_strptime
             (snd (cell_clean (loaded scenario_table))) 1);
    vm_compute; reflexivity.
Defined.

(** ** Running the preparation again *)

Lemma map_fixed {A : Type} (g : A -> A) (l : list A) :
  Forall (fun a => g a = a) l -> map g l = l.
Proof. induction 1 as [|a l Ha _ IH]; [reflexivity|]. cbn [map]. now rewrite Ha, IH. Qed.

Lemma filter_fixed {A : Type} (p : A -> bool) (l : list A) :
  Forall (fun a => p a = true) l -> List.filter p l = l.
Proof.
  induction 1 as [|a l Ha _ IH]; [reflexivity|]. cbn [List.filter]. now rewrite Ha, IH.
Qed.

Lemma count_rows_none (p : row -> bool) (f : frame) :
  Forall (fun r => p r = false) f -> count_rows p f = 0.
Proof.
  unfold count_rows. induction 1 as [|a l Ha _ IH]; [reflexivity|].
  cbn [List.filter]. now rewrite Ha.
Qed.

Lemma prepared_row_fixed (strptime : pystr -> pystr -> option timestamp) (r : row) :
  prepared r ->
  has_required r = true /\
  notna (rating r) = true /\ notna (duration r) = true /\
  date_notna (date_added r) = true /\
  set_country (fillna No_Data (country r)) r = r /\
  set_cast (fillna No_Data (cast r)) r = r /\
  set_director (fillna No_Data (director r)) r = r /\
  set_date_added (to_datetime strptime date_format (date_added r)) r = r /\
  set_added_year (dt year (date_added r)) r = r /\
  set_added_month (dt month (date_added r)) r = r /\
  set_added_day (dt day (date_added r)) r = r.
Proof.
  destruct r as [ti ty di ca co da ra du li ay am ad dint se].
  unfold prepared, has_required, set_country, set_cast, set_director, set_date_added,
    set_added_year, set_added_month, set_added_day.
  cbn [title type_ director cast country date_added rating duration listed_in
       added_year added_month added_day duration_int seasons].
  intros (Hra & Hdu & Hco & Hca & Hdi & t & -> & -> & -> & ->).
  destruct ra, du, co, ca, di; try discriminate. repeat split.
Qed.

Lemma prepared_rerun (strptime : pystr -> pystr -> option timestamp)
      (st : state) (d : nat) :
  df st = Some d -> frame_at (heap st) d <> [] -> Forall prepared (frame_at (heap st) d) ->
  let st1 := snd (cell_clean st) in
  let st2 := snd (cell_dates strptime st1) in
  fst (cell_clean st) = Ok tt /\ fst (cell_dates strptime st1) = Ok tt /\
  main_frame st2 = main_frame st /\
  stdout st1 = stdout st ++ [Print_missing 0 0 0;
                             Print_dropped 0 (length (frame_at (heap st) d))] /\
  stdout st2 = stdout st1 ++ [Print_failed_dates 0].
Proof.
  intros H Hne Hp. cbv zeta.
  destruct (cell_clean_run st d H) as (l1 & _ & D1 & Hres & Hfr).
  pose proof (cell_clean_stdout st d H) as Hout. cbv zeta in Hres, Hfr, Hout.
  rewrite (main_frame_at st d H).
  set (f := frame_at (heap st) d) in *.
  assert (Hlen : (length f =? 0)%nat = false) by (destruct f; [congruence|reflexivity]).
  rewrite Hlen in Hres, Hfr, Hout.
  assert (Hall : forall P : row -> Prop,
             (forall r, prepared r -> P r) -> Forall P f).
  { intros P HP. eapply List.Forall_impl; [exact HP|exact Hp]. }
  rewrite (filter_fixed has_required),
    (map_fixed (fun r => set_country (fillna No_Data (country r)) r)),
    (map_fixed (fun r => set_cast (fillna No_Data (cast r)) r)),
    (map_fixed (fun r => set_director (fillna No_Data (director r)) r)) in Hfr
    by (apply Hall; intros r Hr; apply (prepared_row_fixed strptime r Hr)).
  rewrite (filter_fixed has_required) in Hout
    by (apply Hall; intros r Hr; apply (prepared_row_fixed strptime r Hr)).
  rewrite !count_rows_none in Hout
    by (apply Hall; intros r Hr;
        destruct (prepared_row_fixed strptime r Hr) as (_ & E1 & E2 & E3 & _);
        cbv beta; rewrite ?E1, ?E2, ?E3; reflexivity).
  rewrite Z.sub_diag in Hout.
  rewrite (main_frame_at _ l1 D1) in Hfr.
  destruct (cell_dates_run strptime _ l1 D1) as (R2 & _ & F2 & _).
  pose proof (cell_dates_stdout strptime _ l1 D1) as O2.
  cbv zeta in F2, O2. rewrite Hfr in F2, O2.
  rewrite (map_fixed (fun r => set_date_added
                                 (to_datetime strptime date_format (date_added r)) r))
    in F2, O2
    by (apply Hall; intros r Hr; apply (prepared_row_fixed strptime r Hr)).
  rewrite (filter_fixed (fun r => date_notna (date_added r))),
    (map_fixed (fun r => set_added_year (dt year (date_added r)) r)),
    (map_fixed (fun r => set_added_month (dt month (date_added r)) r)),
    (map_fixed (fun r => set_added_day (dt day (date_added r)) r)) in F2
    by (apply Hall; intros r Hr; apply (prepared_row_fixed strptime r Hr)).
  rewrite count_rows_none in O2
    by (apply Hall; intros r Hr;
        destruct (prepared_row_fixed strptime r Hr) as (_ & _ & _ & E3 & _);
        cbv beta; rewrite ?E3; reflexivity).
  cbn [Nat.ltb Nat.leb] in O2.
  split; [exact Hres|]. split; [exact R2|]. split; [exact F2|].
  split; [exact Hout|exact O2].
Qed.

Lemma prepared_from_prepared (strptime : pystr -> pystr -> option timestamp)
      (l l' : frame) :
  Forall2 (prepared_from strptime) (List.filter (reaches_aggregation strptime) l) l' ->
  Forall prepared l'.
Proof.
  intros HF.
  assert (Hreq : Forall (fun r => has_required r = true)
                        (List.filter (reaches_aggregation strptime) l)).
  { apply List.Forall_forall. intros r Hr. apply filter_In in Hr.
    destruct Hr as [_ Hr]. unfold reaches_aggregation in Hr.
    now apply andb_true_iff in Hr. }
  induction HF as [|a b m m' Hab _ IH]; [constructor|].
  inversion Hreq as [|? ? Ha Hm]; subst. constructor; [|exact (IH Hm)].
  destruct Hab as ((t & _ & Hd & Hy & Hmo & Hda) & (_ & _ & Hra & Hdu & _) & (Hco & Hca & Hdi)).
  unfold has_required in Ha. apply andb_true_iff in Ha. destruct Ha as [Ha _].
  apply andb_true_iff in Ha. destruct Ha as [Ha1 Ha2].
  unfold prepared. rewrite Hra, Hdu, Hco, Hca, Hdi.
  repeat split; try assumption. now exists t.
Qed.

(** X15. Running the cleaning cell and the date cell a second time changes
    nothing: when the first run leaves at least one row, the second run
    raises nothing, leaves the same rows in [df], and reports no missing
    value, no dropped row and no failed date. *)
Theorem preparation_rerun (strptime : pystr -> pystr -> option timestamp)
        (input : frame) :
  let st2 := snd (cell_dates strptime (snd (cell_clean (loaded input)))) in
  let st3 := snd (cell_clean st2) in
  let st4 := snd (cell_dates strptime st3) in
  main_frame st2 <> [] ->
  fst (cell_clean st2) = Ok tt /\ fst (cell_dates strptime st3) = Ok tt /\
  main_frame st4 = main_frame st2 /\
  (exists rest,
     stdout st3 = stdout st2 ++ Print_missing 0 0 0 ::
                                Print_dropped 0 (length (main_frame st2)) :: rest) /\
  stdout st4 = stdout st3 ++ [Print_failed_dates 0].
Proof.
  cbv zeta. intros Hne.
  destruct (cell_clean_run (loaded input) 0 eq_refl) as (l1 & _ & D1 & _ & Hfr).
  cbv zeta in Hfr.
  replace (frame_at (heap (loaded input)) 0) with input in * by reflexivity.
  rewrite (main_frame_at _ l1 D1) in Hfr.
  destruct (cell_dates_run strptime _ l1 D1) as (_ & (l2 & D2 & _) & F2 & _).
  cbv zeta in F2. rewrite Hfr in F2.
  assert (Hp : Forall prepared
                 (main_frame (snd (cell_dates strptime (snd (cell_clean (loaded input))))))).
  { rewrite F2. destruct input as [|r0 input].
    - constructor.
    - cbn [length Nat.eqb]. eapply prepared_from_prepared, prepared_rows. }
  rewrite (main_frame_at _ l2 D2) in Hp, Hne |- *.
  destruct (prepared_rerun strptime _ l2 D2 Hne Hp) as (R3 & R4 & F4 & O3 & O4).
  rewrite (main_frame_at _ l2 D2) in F4.
  split; [exact R3|]. split; [exact R4|]. split; [exact F4|].
  split; [now exists []|exact O4].
Qed.

Lemma preparation_rerun_witness :
  main_frame (snd (cell_dates sample_strptime (snd (cell_clean (loaded scenario_table)))))
    <> [] /\
  fst (cell_clean (snd (cell_dates sample_strptime
                          (snd (cell_clean (loaded scenario_table)))))) = Ok tt.
Proof.
  assert (H : main_frame (snd (cell_dates sample_strptime
                                 (snd (cell_clean (loaded scenario_table))))) <> [])
    by (vm_compute; discriminate).
  split; [exact H|]. apply (preparation_rerun sample_strptime scenario_table H).
Defined.

(** ** The actor cell on a table that was not cleaned *)

Lemma flat_cast_list_raises (sep : pystr) (col : list (option pystr)) :
  existsb (fun c => negb (notna c)) col = true ->
  flat_cast_list (map (option_map (split_go sep [] 0)) col) = Raise TypeError.
Proof.
  induction col as [|c col IH]; [discriminate|].
  destruct c as [s|]; [|reflexivity].
  cbn [existsb notna negb orb map option_map flat_cast_list].
  intros H. now rewrite (IH H).
Qed.

Lemma forallb_notna_cast (f : frame) :
  forallb (fun r => notna (cast r)) f = false ->
  existsb (fun c => negb (notna c))
          (map cast (List.filter (fun r => cell_ne No_Data (cast r)) f)) = true.
Proof.
  induction f as [|r f IH]; [discriminate|].
  cbn [forallb List.filter]. unfold cell_ne, cell_eq at 1.
  destruct (cast r) as [s|] eqn:E; cbn [notna andb negb].
  - intros H. destruct (pystr_eqb s No_Data); cbn [negb map existsb].
    + exact (IH H).
    + rewrite E. cbn [notna negb orb]. exact (IH H).
  - intros _. cbn [map existsb]. now rewrite E.
Qed.

(** X16. The actor cell relies on the cleaning cell.  In a table where
    some rows have a cast and one has none, the row without a cast is not
    the sentinel, so it passes the selection; its split is NaN, iterating
    over it raises [TypeError], and [top_actors] is not assigned. *)
Theorem actor_cell_needs_cast (st : state) (d : nat) (r1 r2 : row) :
  df st = Some d ->
  In r1 (frame_at (heap st) d) -> cast r1 = None ->
  In r2 (frame_at (heap st) d) -> notna (cast r2) = true ->
  fst (cell_actors st) = Raise TypeError /\
  top_actors (snd (cell_actors st)) = top_actors st.
Proof.
  intros H Hr1 Hc1 _ _.
  destruct (cell_actors_run st d H) as (-> & -> & _).
  unfold top_actors_of, cast_series. rewrite apply_str_split by discriminate.
  cbn [bind]. rewrite flat_cast_list_raises; [now split|].
  apply forallb_notna_cast.
  destruct (forallb _ _) eqn:E; [|reflexivity].
  pose proof (proj1 (forallb_forall _ _) E r1 Hr1) as Hn.
  cbv beta in Hn. rewrite Hc1 in Hn. discriminate.
Qed.

Lemma actor_cell_needs_cast_witness :
  fst (cell_actors (loaded scenario_table)) = Raise TypeError /\
  top_actors (snd (cell_actors (loaded scenario_table))) =
    top_actors (loaded scenario_table).
Proof.
  apply (actor_cell_needs_cast (loaded scenario_table) 0
           (csv_row (Some (str "A")) (Some (str "Movie")) None None None
                    (Some (str "January 1, 2020")) (Some (str "PG"))
                    (Some (str "90 min")) (Some (str "Drama, Comedy, Drama")))
           (csv_row (Some (str "B")) (Some (str "TV Show")) None (Some (str "X, Y"))
                    (Some (str "India")) (Some (str "not a date")) (Some (str "PG"))
                    (Some (str "3 Seasons")) (Some (str "Drama")))).
  - reflexivity.
  - now left.
  - reflexivity.
  - right. now left.
  - reflexivity.
Defined.

(** ** Cells written as a list of names *)

Lemma startswith_self (p s : pystr) : startswith p (p ++ s) = true.
Proof.
  induction p as [|x p IH]; [reflexivity|].
  cbn [app startswith]. now rewrite ascii_eqb_refl, IH.
Qed.

Lemma split_go_piece (c : ascii) (sep' g cur s : pystr) :
  ~ In c g ->
  split_go (c :: sep') cur 0 (g ++ s) = split_go (c :: sep') (rev g ++ cur) 0 s.
Proof.
  revert cur. induction g as [|x g IH]; intros cur Hg; [reflexivity|].
  cbn [app split_go startswith].
  destruct (ascii_eqb c x) eqn:E.
  - apply ascii_eqb_eq in E. subst x. destruct Hg. now left.
  - cbn [andb]. rewrite IH by (intros Hin; apply Hg; now right).
    cbn [rev]. now rewrite <- app_assoc.
Qed.

Lemma split_go_sep (sep cur s : pystr) :
  sep <> [] -> split_go sep cur 0 (sep ++ s) = rev cur :: split_go sep [] 0 s.
Proof.
  intros Hsep. destruct sep as [|c sep']; [congruence|].
  change ((c :: sep') ++ s) with (c :: (sep' ++ s)).
  cbn [split_go]. change (c :: (sep' ++ s)) with ((c :: sep') ++ s).
  rewrite startswith_self. f_equal.
  replace (length (c :: sep') - 1) with (length sep') by (cbn [length]; lia).
  apply split_go_skip.
Qed.

Lemma split_go_join (c : ascii) (sep' : pystr) (names : list pystr) :
  names <> [] -> Forall (fun g => ~ In c g) names ->
  split_go (c :: sep') [] 0 (join (c :: sep') names) = names.
Proof.
  intros Hne HF. revert Hne. induction HF as [|g names Hg _ IH]; intros Hne.
  - now destruct Hne.
  - destruct names as [|g' names].
    + cbn [join]. rewrite <- (app_nil_r g) at 1. rewrite split_go_piece by exact Hg.
      cbn [split_go]. now rewrite app_nil_r, rev_involutive.
    + rewrite join_cons by discriminate.
      rewrite split_go_piece by exact Hg.
      rewrite split_go_sep by discriminate.
      now rewrite app_nil_r, rev_involutive, IH.
Qed.

Lemma join_space_cons (x : pystr) (l : list pystr) :
  join (str ",") ((" "%char :: x) :: l) = " "%char :: join (str ",") (x :: l).
Proof. now destruct l. Qed.

Lemma join_comma_space (n : pystr) (rest : list pystr) :
  join (str ", ") (n :: rest) = join (str ",") (n :: map (cons " "%char) rest).
Proof.
  revert n. induction rest as [|r rest IH]; intros n; [reflexivity|].
  rewrite join_cons by discriminate. cbn [map].
  rewrite (join_cons (str ",")) by discriminate.
  rewrite join_space_cons, <- IH. change (str ", ") with (str "," ++ str " ").
  now rewrite <- app_assoc.
Qed.

Lemma strip_fixed (g : pystr) : trimmed g -> strip g = g.
Proof. intros [Hl Hr]. unfold strip. now rewrite Hl, Hr. Qed.

Lemma strip_space_cons (g : pystr) : strip (" "%char :: g) = strip g.
Proof. reflexivity. Qed.

(** X17. A cell written as the data set writes a list, the names joined
    by a comma and a space, gives back the names: for names that are
    trimmed and hold no comma, the genre loop reads them from [listed_in]
    and the actor cell reads them from [cast], one token per name and in
    their order, unless the cast is the sentinel itself. *)
Theorem listed_names_round_trip (names : list pystr) (r : row) :
  names <> [] ->
  Forall (fun g => ~ In ","%char g /\ trimmed g) names ->
  (listed_in r = Some (join (str ", ") names) -> genre_tokens r = names) /\
  (cast r = Some (join (str ", ") names) -> names <> [No_Data] ->
   cast_tokens r = names).
Proof.
  intros Hne HF.
  assert (Hcomma : Forall (fun g => ~ In ","%char g) names).
  { eapply List.Forall_impl; [|exact HF]. cbv beta. tauto. }
  assert (Hstrip : map strip names = names).
  { apply map_fixed. eapply List.Forall_impl; [|exact HF]. cbv beta.
    intros g [_ Hg]. now apply strip_fixed. }
  pose proof (split_go_join ","%char (str " ") names Hne Hcomma) as Hcast.
  change (","%char :: str " ") with (str ", ") in Hcast.
  split.
  - intros Hl. unfold genre_tokens. rewrite Hl.
    destruct names as [|n rest]; [now destruct Hne|].
    rewrite join_comma_space.
    change (str ",") with [","%char].
    rewrite split_go_join.
    + inversion HF as [|? ? [_ Hn] Hrest]; subst. cbn [map].
      rewrite (strip_fixed n Hn). f_equal. rewrite map_map.
      apply map_fixed. eapply List.Forall_impl; [|exact Hrest]. cbv beta.
      intros g [_ Hg]. rewrite strip_space_cons. now apply strip_fixed.
    + discriminate.
    + inversion Hcomma as [|? ? Hn Hrest]; subst. constructor; [exact Hn|].
      apply Forall_map. eapply List.Forall_impl; [|exact Hrest]. cbv beta.
      intros g Hg [E|Hin]; [discriminate|tauto].
  - intros Hc Hnd. unfold cast_tokens. rewrite Hc.
    destruct (pystr_eqb (join (str ", ") names) No_Data) eqn:E.
    + apply pystr_eqb_eq in E. rewrite E in Hcast. destruct Hnd.
      now rewrite <- Hcast.
    + now rewrite Hcast.
Qed.

Lemma listed_names_round_trip_witness :
  genre_tokens (sample_row "Movie" "India" "A, B" "90 min" "Dramas, Comedies") =
    [str "Dramas"; str "Comedies"].
Proof.
  apply (listed_names_round_trip [str "Dramas"; str "Comedies"]).
  - discriminate.
  - repeat constructor; try reflexivity; vm_compute; intuition discriminate.
  - reflexivity.
Defined.

(** ** The text of the word cloud *)

Lemma contains_eq (sub s : pystr) :
  contains sub s =
  startswith sub s || match s with [] => false | _ :: r => contains sub r end.
Proof. now destruct s. Qed.

Lemma contains_middle (sub a b : pystr) : contains sub (a ++ sub ++ b) = true.
Proof.
  induction a as [|x a IH].
  - cbn [app]. now rewrite contains_eq, startswith_self.
  - cbn [app contains]. rewrite IH. apply orb_true_r.
Qed.

Lemma join_In (sep t : pystr) (l : list pystr) :
  In t l -> exists a b, join sep l = a ++ t ++ b.
Proof.
  induction l as [|x l IH]; [intros []|].
  destruct l as [|y l].
  - intros [<-|[]]. exists [], []. cbn [join app]. now rewrite app_nil_r.
  - rewrite join_cons by discriminate. intros [<-|Hin].
    + now exists [], (sep ++ join sep (y :: l)).
    + destruct (IH Hin) as (a & b & ->). exists (x ++ sep ++ a), b.
      now rewrite <- !app_assoc.
Qed.

Lemma In_dropna_cells (col : list (option pystr)) (t : pystr) :
  In (Some t) col -> In t (dropna_cells col).
Proof.
  induction col as [|c col IH]; [intros []|].
  intros [->|Hin]; cbn [dropna_cells].
  - now left.
  - destruct c; [right|]; now apply IH.
Qed.

(** X18. The text handed to the word cloud holds the title of every row of
    [df] that has one, whole, and is empty when no row has a title. *)
Theorem wordcloud_text (generate : pystr -> result unit) (st : state) (d : nat) :
  df st = Some d ->
  exists text,
    stdout (snd (cell_wordcloud generate st)) = stdout st ++ [Plot_wordcloud text] /\
    (forall r t, In r (frame_at (heap st) d) -> title r = Some t ->
                 contains t text = true) /\
    (Forall (fun r => title r = None) (frame_at (heap st) d) -> text = []).
Proof.
  intros H. eexists. split; [|split].
  - unfold cell_wordcloud. nb_run H. reflexivity.
  - intros r t Hr Ht.
    destruct (join_In (str " ") t (dropna_cells (map title (frame_at (heap st) d))))
      as (a & b & ->); [|apply contains_middle].
    apply In_dropna_cells. rewrite <- Ht. now apply in_map.
  - intros HF. induction HF as [|r f Hr _ IH]; [reflexivity|].
    cbn [map dropna_cells]. rewrite Hr. exact IH.
Qed.

Lemma wordcloud_text_witness :
  df (loaded two_countries_table) = Some 0 /\
  exists text,
    stdout (snd (cell_wordcloud sample_generate (loaded two_countries_table))) =
      stdout (loaded two_countries_table) ++ [Plot_wordcloud text] /\
    (forall r t, In r (frame_at (heap (loaded two_countries_table)) 0) ->
                 title r = Some t -> contains t text = true) /\
    (Forall (fun r => title r = None) (frame_at (heap (loaded two_countries_table)) 0) ->
     text = []).
Proof.
  split; [reflexivity|].
  exact (wordcloud_text sample_generate (loaded two_countries_table) 0 eq_refl).
Defined.
